(** * ROIAlign (ncnn, src/layer/roialign.cpp): shallow embedding and properties

    Numeric model.  The C++ code computes in [float]; the properties below
    are stated in exact arithmetic, so [float] is embedded as [Q] (with
    [==] as the equality of values), [int] as [Z] (signed overflow is
    undefined behaviour in C++ and not part of the model), [(int)x] as
    truncation toward zero and [std::ceil] as [Qceiling].

    Effects.  Vectors and buffers are lists accessed by index.  A subscript
    outside the object is undefined behaviour in C++ and is an explicit
    outcome here, as is the [std::length_error] raised by the constructor
    [std::vector<T>(n)] when [n], converted to [size_t], exceeds
    [max_size()] (which is the case for every negative [int]). *)

From Stdlib Require Import ZArith QArith Qround Lia Lqa.
From stdpp Require Import base tactics option list list_numbers gmap.

Local Open Scope Z_scope.

(** ** Outcomes of a computation *)

Inductive outcome (A : Type) : Type :=
| Done (a : A)
| OutOfRange
| LengthError
| Undefined.
Arguments Done {A} a.
Arguments OutOfRange {A}.
Arguments LengthError {A}.
Arguments Undefined {A}.

Definition bind {A B} (m : outcome A) (k : A -> outcome B) : outcome B :=
  match m with
  | Done a => k a
  | OutOfRange => OutOfRange
  | LengthError => LengthError
  | Undefined => Undefined
  end.

Notation "'do' x <- m ; k" := (bind m (fun x => k))
  (at level 10, x name, m at level 100, k at level 200).
Notation "'do' ' p <- m ; k" := (bind m (fun x => match x with p => k end))
  (at level 10, p pattern, m at level 100, k at level 200).

(** [for (int i = 0; i < n; i++) body], threading the loop state. *)
Fixpoint iterate {S A} (body : A -> S -> outcome S) (l : list A) (s : S) : outcome S :=
  match l with
  | [] => Done s
  | a :: l' => do s' <- body a s; iterate body l' s'
  end.

Definition for_int {S} (n : Z) (body : Z -> S -> outcome S) (s : S) : outcome S :=
  iterate body (seqZ 0 n) s.

(** [v[i]] as an rvalue and [v[i] = a]. *)
Definition at_ {A} (v : list A) (i : Z) : outcome A :=
  if i <? 0 then OutOfRange
  else match v !! Z.to_nat i with
       | Some a => Done a
       | None => OutOfRange
       end.

Definition assign {A} (v : list A) (i : Z) (a : A) : outcome (list A) :=
  if (0 <=? i) && (i <? Z.of_nat (length v))
  then Done (<[Z.to_nat i := a]> v)
  else OutOfRange.

(** ** Numeric conversions *)

Definition Qltb (x y : Q) : bool := negb (Qle_bool y x).

(** [(int)y]: truncation toward zero. *)
Definition to_int (y : Q) : Z := Z.quot (Qnum y) (Z.pos (Qden y)).

(** ** The stencil record *)

Record PreCalc : Type := mkPreCalc {
  pos1 : Z; pos2 : Z; pos3 : Z; pos4 : Z;
  w1 : Q; w2 : Q; w3 : Q; w4 : Q
}.

(** The "empty" stencil of lines 69-77; also the value-initialised element
    of a freshly constructed [std::vector<PreCalc<float>>]. *)
Definition PreCalc_empty : PreCalc := mkPreCalc 0 0 0 0 0%Q 0%Q 0%Q 0%Q.

(** [std::vector<PreCalc<float>> pre_calc(n)] with [n] an [int]. *)
Definition vector (n : Z) : outcome (list PreCalc) :=
  if n <? 0 then LengthError else Done (replicate (Z.to_nat n) PreCalc_empty).

(** ** pre_calc_for_bilinear_interpolate *)

(** Line 67: the sample lies outside the feature map. *)
Definition outside (height width : Z) (y x : Q) : bool :=
  Qltb y (-1) || Qltb (inject_Z height) y || Qltb x (-1) || Qltb (inject_Z width) x.

(** Lines 83-88, one axis. *)
Definition clamp0 (y : Q) : Q := if Qle_bool y 0 then 0%Q else y.

(** Lines 90-107, one axis: the two neighbouring grid lines and the
    (possibly snapped) coordinate. *)
Record Axis : Type := mkAxis { low : Z; high : Z; coord : Q }.

Definition neighbours (size : Z) (y : Q) : Axis :=
  let y_low := to_int y in
  if y_low >=? size - 1
  then mkAxis (size - 1) (size - 1) (inject_Z (size - 1))
  else mkAxis y_low (y_low + 1) y.

(** Lines 109-123. *)
Definition weights (width : Z) (ay ax : Axis) : PreCalc :=
  let ly := (coord ay - inject_Z (low ay))%Q in
  let lx := (coord ax - inject_Z (low ax))%Q in
  let hy := (1 - ly)%Q in
  let hx := (1 - lx)%Q in
  mkPreCalc (low ay * width + low ax) (low ay * width + high ax)
            (high ay * width + low ax) (high ay * width + high ax)
            (hy * hx) (hy * lx) (ly * hx) (ly * lx).

(** Lines 64-126: the stencil of the sample point [(yy, xx)]. *)
Definition stencil (height width : Z) (yy xx : Q) : PreCalc :=
  let x := xx in
  let y := yy in
  if outside height width y x then PreCalc_empty
  else
    let y := clamp0 y in
    let x := clamp0 x in
    weights width (neighbours height y) (neighbours width x).

(** Lines 56-58 and 60-62: continuous coordinate of a sample along one axis. *)
Definition sample_coord (roi_start : Q) (p : Z) (bin_size : Q) (i : Z) (roi_bin_grid : Z) : Q :=
  (roi_start + inject_Z p * bin_size
   + (inject_Z i + (1 # 2)) * bin_size / inject_Z roi_bin_grid)%Q.

(** [pre_calc[pre_calc_index] = pc; pre_calc_index += 1]. *)
Definition emit (pc : PreCalc) (st : list PreCalc * Z) : outcome (list PreCalc * Z) :=
  let '(pre_calc, pre_calc_index) := st in
  do pre_calc' <- assign pre_calc pre_calc_index pc;
  Done (pre_calc', pre_calc_index + 1).

(** The four nested loops, returning the vector and the final value of
    [pre_calc_index]. *)
Definition pre_calc_loops (height width pooled_height pooled_width iy_upper ix_upper : Z)
    (roi_start_h roi_start_w bin_size_h bin_size_w : Q)
    (roi_bin_grid_h roi_bin_grid_w : Z) (pre_calc : list PreCalc)
  : outcome (list PreCalc * Z) :=
  for_int pooled_height (fun ph =>
    for_int pooled_width (fun pw =>
      for_int iy_upper (fun iy =>
        let yy := sample_coord roi_start_h ph bin_size_h iy roi_bin_grid_h in
        for_int ix_upper (fun ix =>
          let xx := sample_coord roi_start_w pw bin_size_w ix roi_bin_grid_w in
          emit (stencil height width yy xx)))))
    (pre_calc, 0).

Definition pre_calc_for_bilinear_interpolate
    (height width pooled_height pooled_width iy_upper ix_upper : Z)
    (roi_start_h roi_start_w bin_size_h bin_size_w : Q)
    (roi_bin_grid_h roi_bin_grid_w : Z) (pre_calc : list PreCalc)
  : outcome (list PreCalc) :=
  do st <- pre_calc_loops height width pooled_height pooled_width iy_upper ix_upper
             roi_start_h roi_start_w bin_size_h bin_size_w
             roi_bin_grid_h roi_bin_grid_w pre_calc;
  Done (fst st).

(** ** The layer *)

Record ROIAlign : Type := mkROIAlign {
  pooled_width : Z;
  pooled_height : Z;
  spatial_scale : Q;
  sampling_ratio : Z;
  aligned : bool
}.





(** Modelled from the spec: the tensor container [Mat] (mat.h is not part of
    the sources at hand): a shape [(w, h, c)] and, per channel, a row-major
    buffer of [w * h] elements; [None] stands for the null data pointer of
    an empty blob. *)
Record Mat : Type := mkMat {
  w : Z; h : Z; c : Z;
  data : option (list (list Q))
}.

Definition Mat_none : Mat := mkMat 0 0 0 None.

(** Modelled from the spec: [Mat::create] asks the supplied allocator for a
    buffer of the requested shape; the blob stays empty if that fails.  The
    contents of a fresh buffer are whatever the allocator hands out. *)
Definition create (_w _h _c : Z) (blob_allocator : Z -> Z -> Z -> option (list (list Q))) : Mat :=
  match blob_allocator _w _h _c with
  | Some buf => mkMat _w _h _c (Some buf)
  | None => Mat_none
  end.

Definition empty (m : Mat) : bool :=
  match data m with Some _ => false | None => true end.

(** [m.channel(q)] converted to a pointer to its elements. *)
Definition channel (m : Mat) (q : Z) : outcome (list Q) :=
  match data m with
  | Some chans => at_ chans q
  | None => OutOfRange
  end.

(** Lines 164-189: quantities derived from the ROI box. *)
Record Geometry : Type := mkGeometry {
  roi_start_w : Q; roi_start_h : Q;
  roi_end_w : Q; roi_end_h : Q;
  roi_width : Q; roi_height : Q;
  bin_size_w : Q; bin_size_h : Q;
  roi_bin_grid_h : Z; roi_bin_grid_w : Z;
  count : Q
}.

Definition offset_of (L : ROIAlign) : Q := if aligned L then (1 # 2)%Q else 0%Q.

Definition Qmax (a b : Q) : Q := if Qltb a b then b else a.

Definition geometry (L : ROIAlign) (r0 r1 r2 r3 : Q) : Geometry :=
  let offset := offset_of L in
  let roi_start_w := (r0 * spatial_scale L - offset)%Q in
  let roi_start_h := (r1 * spatial_scale L - offset)%Q in
  let roi_end_w := (r2 * spatial_scale L - offset)%Q in
  let roi_end_h := (r3 * spatial_scale L - offset)%Q in
  let roi_width := (roi_end_w - roi_start_w)%Q in
  let roi_height := (roi_end_h - roi_start_h)%Q in
  let roi_width := if negb (aligned L) then Qmax roi_width 1 else roi_width in
  let roi_height := if negb (aligned L) then Qmax roi_height 1 else roi_height in
  let bin_size_w := (roi_width / inject_Z (pooled_width L))%Q in
  let bin_size_h := (roi_height / inject_Z (pooled_height L))%Q in
  let roi_bin_grid_h :=
    if sampling_ratio L >? 0 then sampling_ratio L
    else Qceiling (roi_height / inject_Z (pooled_height L)) in
  let roi_bin_grid_w :=
    if sampling_ratio L >? 0 then sampling_ratio L
    else Qceiling (roi_width / inject_Z (pooled_width L)) in
  let count := inject_Z (Z.max (roi_bin_grid_h * roi_bin_grid_w) 1) in
  mkGeometry roi_start_w roi_start_h roi_end_w roi_end_h roi_width roi_height
             bin_size_w bin_size_h roi_bin_grid_h roi_bin_grid_w count.

(** Lines 225-231: one step of the innermost loop. *)
Definition accumulate (pre_calc : list PreCalc) (ptr : list Q) (st : Q * Z) : outcome (Q * Z) :=
  let '(output_val, pre_calc_index) := st in
  do pc <- at_ pre_calc pre_calc_index;
  do v1 <- at_ ptr (pos1 pc);
  do v2 <- at_ ptr (pos2 pc);
  do v3 <- at_ ptr (pos3 pc);
  do v4 <- at_ ptr (pos4 pc);
  Done ((output_val + (w1 pc * v1 + w2 pc * v2 + w3 pc * v3 + w4 pc * v4))%Q,
        pre_calc_index + 1).

(** Lines 214-238: the pooling pass over one channel.  The loop state is
    the output buffer, the offset of [outptr] in it and [pre_calc_index]. *)
Definition pool_channel (L : ROIAlign) (G : Geometry) (pre_calc : list PreCalc)
    (ptr : list Q) (out : list Q) : outcome (list Q) :=
  do st <- for_int (pooled_height L) (fun ph '(out, outptr, pre_calc_index) =>
      do '(out, pre_calc_index) <-
        for_int (pooled_width L) (fun pw '(out, pre_calc_index) =>
          do '(output_val, pre_calc_index) <-
            for_int (roi_bin_grid_h G) (fun iy =>
              for_int (roi_bin_grid_w G) (fun ix =>
                accumulate pre_calc ptr))
              (0%Q, pre_calc_index);
          let output_val := (output_val / count G)%Q in
          do out <- assign out (outptr + pw) output_val;
          Done (out, pre_calc_index))
          (out, pre_calc_index);
      Done (out, outptr + pooled_width L, pre_calc_index))
    (out, 0, 0);
  Done (fst (fst st)).

(** [top_blob.channel(q)] seen as the destination of the stores of one
    iteration of the channel loop. *)
Definition store_channel (m : Mat) (q : Z) (buf : list Q) : outcome Mat :=
  match data m with
  | Some chans =>
      do chans' <- assign chans q buf;
      Done (mkMat (w m) (h m) (c m) (Some chans'))
  | None => OutOfRange
  end.

(** Lines 209-239: the loop over the channels (each iteration touches its
    own channel of the output only, so the order of the iterations is
    immaterial). *)
Definition pool_channels (L : ROIAlign) (G : Geometry) (pre_calc : list PreCalc)
    (bottom_blob : Mat) (channels : Z) (top_blob : Mat) : outcome Mat :=
  for_int channels (fun q top_blob =>
    do ptr <- channel bottom_blob q;
    do out <- channel top_blob q;
    do out' <- pool_channel L G pre_calc ptr out;
    store_channel top_blob q out')
    top_blob.

(** ROIAlign::forward: the status code and the state of [top_blobs[0]]. *)
Definition forward (L : ROIAlign) (bottom_blob : Mat) (roi_blob : list Q)
    (blob_allocator : Z -> Z -> Z -> option (list (list Q))) : outcome (Z * Mat) :=
  let width := w bottom_blob in
  let height := h bottom_blob in
  let channels := c bottom_blob in
  let top_blob := create (pooled_width L) (pooled_height L) channels blob_allocator in
  if empty top_blob then Done (-100, top_blob)
  else
    do r0 <- at_ roi_blob 0;
    do r1 <- at_ roi_blob 1;
    do r2 <- at_ roi_blob 2;
    do r3 <- at_ roi_blob 3;
    let G := geometry L r0 r1 r2 r3 in
    do pre_calc <- vector (roi_bin_grid_h G * roi_bin_grid_w G
                           * pooled_width L * pooled_height L);
    do pre_calc <- pre_calc_for_bilinear_interpolate height width
                     (pooled_height L) (pooled_width L)
                     (roi_bin_grid_h G) (roi_bin_grid_w G)
                     (roi_start_h G) (roi_start_w G) (bin_size_h G) (bin_size_w G)
                     (roi_bin_grid_h G) (roi_bin_grid_w G) pre_calc;
    do top_blob <- pool_channels L G pre_calc bottom_blob channels top_blob;
    Done (0, top_blob).

(** ** Scenarios of the specification, run on the model *)

Definition ones4x4 : Mat := mkMat 4 4 1 (Some [replicate 16 1%Q]).
Definition rows4x4 : Mat :=
  mkMat 4 4 1 (Some [[0;0;0;0;1;1;1;1;2;2;2;2;3;3;3;3]%Q]).
Definition plain_allocator (_w _h _c : Z) : option (list (list Q)) :=
  Some (replicate (Z.to_nat _c) (replicate (Z.to_nat (_w * _h)) 0%Q)).
Definition failing_allocator (_w _h _c : Z) : option (list (list Q)) := None.

(** pooled 2x2, spatial_scale 1, sampling_ratio 2, aligned. *)
Definition layer_2x2 : ROIAlign := mkROIAlign 2 2 1 2 true.
(** pooled 1x1, spatial_scale 1, adaptive sampling, aligned. *)
Definition layer_adaptive : ROIAlign := mkROIAlign 1 1 1 0 true.
(** pooled 2x2, spatial_scale 1/2, sampling_ratio 2, not aligned. *)
Definition layer_legacy : ROIAlign := mkROIAlign 2 2 (1 # 2) 2 false.


Definition inverted_roi : list Q := [0; 0; 2; -2]%Q.


(** Two 2x2 feature maps with two channels that share their first channel. *)
Definition pair2x2_a : Mat := mkMat 2 2 2 (Some [[1;2;3;4]; [5;6;7;8]]%Q).
Definition pair2x2_b : Mat := mkMat 2 2 2 (Some [[1;2;3;4]; [0;0;0;9]]%Q).

(** ** Spec-side definitions *)

(** [v[i]] as a total function (0 outside the buffer). *)
Definition peek (v : list Q) (i : Z) : Q :=
  if i <? 0 then 0%Q else default 0%Q (v !! Z.to_nat i).

(** The bilinear sample a stencil takes from a channel buffer:
    [w1*v[pos1] + w2*v[pos2] + w3*v[pos3] + w4*v[pos4]]. *)
Definition term (v : list Q) (pc : PreCalc) : Q :=
  (w1 pc * peek v (pos1 pc) + w2 pc * peek v (pos2 pc)
   + w3 pc * peek v (pos3 pc) + w4 pc * peek v (pos4 pc))%Q.

Definition Qsum (l : list Q) : Q := foldr Qplus 0%Q l.

(** Position of the stencil of sample [(ph, pw, iy, ix)] in row-major
    [(ph, pw, iy, ix)] order. *)
Definition slot (PW GH GW ph pw iy ix : Z) : Z :=
  ((ph * PW + pw) * GH + iy) * GW + ix.

(** The [GH * GW] consecutive stencils that belong to cell [(ph, pw)]. *)
Definition cell_stencils (pre_calc : list PreCalc) (PW GH GW ph pw : Z) : list PreCalc :=
  take (Z.to_nat (GH * GW)) (drop (Z.to_nat ((ph * PW + pw) * (GH * GW))) pre_calc).


(** Element [(q, ph, pw)] of a blob. *)
Definition cell (m : Mat) (q ph pw : Z) : outcome Q :=
  do ch <- channel m q; at_ ch (ph * w m + pw).

(** Shape checks on buffers and blobs. *)
Definition shape_ok (chans : list (list Q)) (channels n : Z) : bool :=
  (Z.of_nat (length chans) =? channels)
  && forallb (fun ch => Z.of_nat (length ch) =? n) chans.

Definition blob_ok (m : Mat) : bool :=
  (1 <=? w m) && (1 <=? h m)
  && match data m with
     | Some chans => shape_ok chans (c m) (w m * h m)
     | None => false
     end.

(** The bilinear sample of a channel buffer at a point. *)
Definition bilinear (v : list Q) (height width : Z) (y x : Q) : Q :=
  term v (stencil height width y x).

(** Mean of the [GH * GW] bilinear samples of cell [(ph, pw)]. *)
Definition cell_mean (v : list Q) (height width : Z) (rsh rsw bsh bsw : Q)
    (GH GW ph pw : Z) : Q :=
  (Qsum ((fun iy =>
            Qsum ((fun ix =>
                     bilinear v height width
                       (sample_coord rsh ph bsh iy GH) (sample_coord rsw pw bsw ix GW))
                    <$> seqZ 0 GW))
           <$> seqZ 0 GH)
   / inject_Z (GH * GW))%Q.

(** Every sample point of the plan is inside the sentinel-free region. *)
Definition all_inside (height width PH PW GH GW : Z) (rsh rsw bsh bsw : Q) : bool :=
  forallb (fun ph =>
    forallb (fun pw =>
      forallb (fun iy =>
        forallb (fun ix =>
          negb (outside height width (sample_coord rsh ph bsh iy GH)
                  (sample_coord rsw pw bsw ix GW)))
          (seqZ 0 GW))
        (seqZ 0 GH))
      (seqZ 0 PW))
    (seqZ 0 PH).

(** All elements of all channels equal [v]. *)
Definition constant_blob (m : Mat) (v : Q) : bool :=
  match data m with
  | Some chans => forallb (forallb (fun x => Qeq_bool x v)) chans
  | None => false
  end.

(** Stencils with the same offsets and equal weights. *)
Definition PreCalc_equiv (a b : PreCalc) : Prop :=
  pos1 a = pos1 b /\ pos2 a = pos2 b /\ pos3 a = pos3 b /\ pos4 a = pos4 b
  /\ (w1 a == w1 b)%Q /\ (w2 a == w2 b)%Q /\ (w3 a == w3 b)%Q /\ (w4 a == w4 b)%Q.

(** The layer with [aligned] switched on. *)
Definition with_aligned (L : ROIAlign) : ROIAlign :=
  mkROIAlign (pooled_width L) (pooled_height L) (spatial_scale L) (sampling_ratio L) true.

(** A ROI coordinate moved by [0.5 / spatial_scale]. *)
Definition shifted (L : ROIAlign) (r : Q) : Q := (r + (1 # 2) / spatial_scale L)%Q.




(** The layer with [spatial_scale] multiplied by [k]. *)
Definition rescaled (L : ROIAlign) (k : Q) : ROIAlign :=
  mkROIAlign (pooled_width L) (pooled_height L) (spatial_scale L * k)%Q
             (sampling_ratio L) (aligned L).

(** [v3 = a * v1 + b * v2], element by element. *)
Definition combination (a b : Q) (v1 v2 v3 : list Q) : bool :=
  (length v1 =? length v3)%nat && (length v2 =? length v3)%nat
  && forallb (fun t => Qeq_bool (fst t) (a * fst (snd t) + b * snd (snd t)))
       (zip v3 (zip v1 v2)).

(** The same for blobs of one shape, channel by channel. *)
Definition combination_blob (a b : Q) (m1 m2 m3 : Mat) : bool :=
  (w m1 =? w m3) && (w m2 =? w m3) && (h m1 =? h m3) && (h m2 =? h m3)
  && (c m1 =? c m3) && (c m2 =? c m3)
  && match data m1, data m2, data m3 with
     | Some c1, Some c2, Some c3 =>
         (length c1 =? length c3)%nat && (length c2 =? length c3)%nat
         && forallb (fun t => combination a b (fst (snd t)) (snd (snd t)) (fst t))
              (zip c3 (zip c1 c2))
     | _, _, _ => false
     end.

(** The feature map [2 * ones4x4 + 3 * rows4x4]. *)
Definition mixed4x4 : Mat :=
  mkMat 4 4 1 (Some [[2;2;2;2;5;5;5;5;8;8;8;8;11;11;11;11]%Q]).

(** ** Loops *)

Section Loops.
Context {S : Type}.
Implicit Types (body : Z -> S -> outcome S) (s : S).

Lemma iterate_app {A} (f : A -> S -> outcome S) (l1 l2 : list A) s :
  iterate f (l1 ++ l2) s = (do s' <- iterate f l1 s; iterate f l2 s').
Proof.
  revert s. induction l1 as [|a l1 IH]; intros s; simpl; [reflexivity|].
  destruct (f a s); simpl; auto.
Qed.

Lemma for_int_le0 n body s : n <= 0 -> for_int n body s = Done s.
Proof. intros Hn. unfold for_int. rewrite seqZ_nil by lia. reflexivity. Qed.

(** Hoare-style rule: an invariant indexed by the loop counter. *)
Lemma for_int_inv (I : Z -> S -> Prop) n body s0 :
  0 <= n ->
  I 0 s0 ->
  (forall i s, 0 <= i < n -> I i s -> exists s', body i s = Done s' /\ I (i + 1) s') ->
  exists s', for_int n body s0 = Done s' /\ I n s'.
Proof.
  intros Hn H0 Hstep. unfold for_int.
  assert (Hk : forall k : nat, Z.of_nat k <= n ->
            exists s', iterate body (seqZ 0 (Z.of_nat k)) s0 = Done s' /\ I (Z.of_nat k) s').
  { induction k as [|k IH]; intros Hle.
    - exists s0. split; [reflexivity | exact H0].
    - destruct IH as (s1 & Hrun & HI); [lia|].
      rewrite seqZ_S, iterate_app, Hrun. simpl.
      destruct (Hstep (Z.of_nat k) s1) as (s2 & Hb & HI2); [lia | exact HI |].
      rewrite Z.add_0_l, Hb. simpl. exists s2. split; [reflexivity|].
      replace (Z.of_nat (Datatypes.S k)) with (Z.of_nat k + 1) by lia. exact HI2. }
  destruct (Hk (Z.to_nat n)) as (s' & Hrun & HI); [lia|].
  rewrite Z2Nat.id in Hrun, HI by lia. eauto.
Qed.

(** A loop whose body does nothing, or that is not entered. *)
Lemma for_int_skip n body s :
  (forall i s, 0 <= i < n -> body i s = Done s) -> for_int n body s = Done s.
Proof.
  intros Hb. destruct (Z.le_gt_cases n 0) as [Hn|Hn].
  - apply for_int_le0; lia.
  - destruct (for_int_inv (fun _ s' => s' = s) n body s) as (s' & Hrun & ->);
      [lia | reflexivity | | exact Hrun].
    intros i s1 Hi ->. exists s. split; [apply Hb; lia | reflexivity].
Qed.
End Loops.

(** ** Subscripts *)

Lemma at_Done {A} (v : list A) (i : Z) (a : A) :
  0 <= i -> v !! Z.to_nat i = Some a -> at_ v i = Done a.
Proof.
  intros Hi Hv. unfold at_. destruct (Z.ltb_spec i 0); [lia|]. rewrite Hv. reflexivity.
Qed.

Lemma at_Done_inv {A} (v : list A) (i : Z) (a : A) :
  at_ v i = Done a -> 0 <= i /\ v !! Z.to_nat i = Some a.
Proof.
  unfold at_. destruct (Z.ltb_spec i 0); [discriminate|].
  destruct (v !! Z.to_nat i); [|discriminate]. intros [= ->]. split; [lia | reflexivity].
Qed.

Lemma assign_Done {A} (v : list A) (i : Z) (a : A) :
  0 <= i < Z.of_nat (length v) -> assign v i a = Done (<[Z.to_nat i := a]> v).
Proof.
  intros Hi. unfold assign.
  destruct (Z.leb_spec 0 i); [|lia]. destruct (Z.ltb_spec i (Z.of_nat (length v))); [|lia].
  reflexivity.
Qed.

Lemma peek_at (v : list Q) (i : Z) :
  0 <= i < Z.of_nat (length v) -> at_ v i = Done (peek v i).
Proof.
  intros Hi. unfold at_, peek. destruct (Z.ltb_spec i 0); [lia|].
  destruct (lookup_lt_is_Some_2 v (Z.to_nat i)) as [a Ha]; [lia|].
  rewrite Ha. reflexivity.
Qed.

(** ** Row-major indexing *)

Lemma slot_range PH PW GH GW ph pw iy ix :
  0 <= ph < PH -> 0 <= pw < PW -> 0 <= iy < GH -> 0 <= ix < GW ->
  0 <= slot PW GH GW ph pw iy ix < PH * PW * GH * GW.
Proof.
  intros Hph Hpw Hiy Hix. unfold slot.
  assert (0 <= ph * PW + pw < PH * PW) by nia.
  assert (0 <= (ph * PW + pw) * GH + iy < PH * PW * GH) by nia.
  nia.
Qed.

Lemma divmod_slot n a b : 0 <= b < n -> (a * n + b) / n = a /\ (a * n + b) mod n = b.
Proof.
  intros Hb. split.
  - rewrite Z.add_comm, Z.div_add by lia. rewrite Z.div_small by lia. lia.
  - rewrite Z.add_comm, Z.mod_add by lia. apply Z.mod_small; lia.
Qed.

(** ** The sampling plan *)

Section Builder.
Variables (height width PH PW GH GW : Z).
Variables (roi_start_h roi_start_w bin_size_h bin_size_w : Q).

(** The stencil of sample [(ph, pw, iy, ix)]. *)
Definition stencil_of (ph pw iy ix : Z) : PreCalc :=
  stencil height width
    (sample_coord roi_start_h ph bin_size_h iy GH)
    (sample_coord roi_start_w pw bin_size_w ix GW).

(** The stencil at position [j] of the row-major enumeration. *)
Definition plan_at (j : Z) : PreCalc :=
  stencil_of (j / GW / GH / PW) ((j / GW / GH) mod PW) ((j / GW) mod GH) (j mod GW).

Definition plan : list PreCalc := plan_at <$> seqZ 0 (PH * PW * GH * GW).

Lemma plan_at_slot ph pw iy ix :
  0 <= pw < PW -> 0 <= iy < GH -> 0 <= ix < GW ->
  plan_at (slot PW GH GW ph pw iy ix) = stencil_of ph pw iy ix.
Proof.
  intros Hpw Hiy Hix. unfold plan_at, slot.
  destruct (divmod_slot GW ((ph * PW + pw) * GH + iy) ix Hix) as [-> ->].
  destruct (divmod_slot GH (ph * PW + pw) iy Hiy) as [-> ->].
  destruct (divmod_slot PW ph pw Hpw) as [-> ->].
  reflexivity.
Qed.

(** Every position of the enumeration is the slot of a sample in range. *)
Lemma slot_decode j :
  0 <= j < PH * PW * GH * GW -> 0 < PW -> 0 < GH -> 0 < GW ->
  let ph := j / GW / GH / PW in
  let pw := (j / GW / GH) mod PW in
  let iy := (j / GW) mod GH in
  let ix := j mod GW in
  (0 <= ph < PH /\ 0 <= pw < PW /\ 0 <= iy < GH /\ 0 <= ix < GW)
  /\ slot PW GH GW ph pw iy ix = j.
Proof.
  intros Hj HPW HGH HGW; cbv zeta.
  pose proof (Z.div_mod j GW ltac:(lia)) as E1.
  pose proof (Z.mod_pos_bound j GW HGW) as B1.
  pose proof (Z.div_mod (j / GW) GH ltac:(lia)) as E2.
  pose proof (Z.mod_pos_bound (j / GW) GH HGH) as B2.
  pose proof (Z.div_mod (j / GW / GH) PW ltac:(lia)) as E3.
  pose proof (Z.mod_pos_bound (j / GW / GH) PW HPW) as B3.
  assert (0 <= j / GW) by (apply Z.div_pos; lia).
  assert (0 <= j / GW / GH) by (apply Z.div_pos; lia).
  assert (0 <= j / GW / GH / PW) by (apply Z.div_pos; lia).
  assert (j / GW < PH * PW * GH) by (apply Z.div_lt_upper_bound; lia).
  assert (j / GW / GH < PH * PW) by (apply Z.div_lt_upper_bound; lia).
  assert (j / GW / GH / PW < PH) by (apply Z.div_lt_upper_bound; lia).
  unfold slot. repeat split; try lia.
Qed.

(** State of the builder after [k] stencils have been emitted. *)
Definition filled (n : nat) (k : Z) (st : list PreCalc * Z) : Prop :=
  snd st = k /\ length (fst st) = n
  /\ forall j, 0 <= j < k -> fst st !! Z.to_nat j = Some (plan_at j).

Lemma emit_filled n k pc st :
  filled n k st -> 0 <= k < Z.of_nat n -> pc = plan_at k ->
  exists st', emit pc st = Done st' /\ filled n (k + 1) st'.
Proof.
  intros (Hk & Hlen & Hpre) Hr ->. destruct st as [v i]; simpl in *. subst i.
  rewrite assign_Done by lia. simpl. eexists; split; [reflexivity|].
  split; [reflexivity|]. split; simpl; [by rewrite length_insert|].
  intros j Hj. destruct (decide (j = k)) as [->|Hne].
  - apply list_lookup_insert_eq. lia.
  - rewrite list_lookup_insert_ne by lia. apply Hpre. lia.
Qed.

Definition loops (v : list PreCalc) : outcome (list PreCalc * Z) :=
  pre_calc_loops height width PH PW GH GW
    roi_start_h roi_start_w bin_size_h bin_size_w GH GW v.

Lemma loops_run (v : list PreCalc) :
  0 <= PH -> 0 <= PW -> 0 <= GH -> 0 <= GW ->
  Z.of_nat (length v) = PH * PW * GH * GW ->
  exists st, loops v = Done st /\ filled (length v) (PH * PW * GH * GW) st.
Proof.
  intros HPH HPW HGH HGW Hlen. unfold loops, pre_calc_loops.
  set (n := length v) in *.
  destruct (for_int_inv (fun ph => filled n (slot PW GH GW ph 0 0 0)) PH
    (fun ph => for_int PW (fun pw => for_int GH (fun iy => for_int GW (fun ix =>
       emit (stencil height width (sample_coord roi_start_h ph bin_size_h iy GH)
               (sample_coord roi_start_w pw bin_size_w ix GW))))))
    (v, 0)) as (st & Hrun & HI); [lia | | | ].
  - split; [reflexivity|]. split; [reflexivity|]. intros j Hj. unfold slot in Hj. lia.
  - intros ph st Hph Hst.
    replace (slot PW GH GW (ph + 1) 0 0 0) with (slot PW GH GW ph PW 0 0)
      by (unfold slot; ring).
    apply (for_int_inv (fun pw => filled n (slot PW GH GW ph pw 0 0))); [lia | exact Hst |].
    clear st Hst. intros pw st Hpw Hst.
    replace (slot PW GH GW ph (pw + 1) 0 0) with (slot PW GH GW ph pw GH 0)
      by (unfold slot; ring).
    apply (for_int_inv (fun iy => filled n (slot PW GH GW ph pw iy 0))); [lia | exact Hst |].
    clear st Hst. intros iy st Hiy Hst.
    replace (slot PW GH GW ph pw (iy + 1) 0) with (slot PW GH GW ph pw iy GW)
      by (unfold slot; ring).
    apply (for_int_inv (fun ix => filled n (slot PW GH GW ph pw iy ix))); [lia | exact Hst |].
    clear st Hst. intros ix st Hix Hst.
    replace (slot PW GH GW ph pw iy (ix + 1)) with (slot PW GH GW ph pw iy ix + 1)
      by (unfold slot; ring).
    apply emit_filled; [exact Hst | | ].
    + pose proof (slot_range PH PW GH GW ph pw iy ix Hph Hpw Hiy Hix). lia.
    + symmetry. apply plan_at_slot; lia.
  - exists st. split; [exact Hrun|].
    replace (PH * PW * GH * GW) with (slot PW GH GW PH 0 0 0) by (unfold slot; ring).
    exact HI.
Qed.

(** With a vector of exactly the right size the builder returns the plan. *)
Lemma loops_plan (v : list PreCalc) :
  0 <= PH -> 0 <= PW -> 0 <= GH -> 0 <= GW ->
  Z.of_nat (length v) = PH * PW * GH * GW ->
  loops v = Done (plan, PH * PW * GH * GW).
Proof.
  intros HPH HPW HGH HGW Hlen.
  destruct (loops_run v) as ([v' k] & Hrun & Hk & Hl & Hpre); try assumption.
  simpl in *. subst k. rewrite Hrun. f_equal. f_equal.
  apply list_eq. intros i. unfold plan. rewrite list_lookup_fmap.
  destruct (decide (Z.of_nat i < PH * PW * GH * GW)) as [Hi|Hi].
  - rewrite lookup_seqZ_lt by lia. simpl.
    rewrite <- (Nat2Z.id i) at 1. apply Hpre. lia.
  - rewrite lookup_seqZ_ge by lia. simpl. apply lookup_ge_None. lia.
Qed.

(** A loop nest with an empty range leaves the vector alone. *)
Lemma loops_idle (v : list PreCalc) :
  PH <= 0 \/ PW <= 0 \/ GH <= 0 \/ GW <= 0 -> loops v = Done (v, 0).
Proof.
  intros Hz. unfold loops, pre_calc_loops.
  apply for_int_skip. intros ph st Hph.
  apply for_int_skip. intros pw st' Hpw.
  apply for_int_skip. intros iy st'' Hiy.
  apply for_int_le0. lia.
Qed.

Lemma plan_length : length plan = Z.to_nat (PH * PW * GH * GW).
Proof. unfold plan. by rewrite length_fmap, length_seqZ. Qed.

Lemma plan_lookup j :
  0 <= j < PH * PW * GH * GW -> plan !! Z.to_nat j = Some (plan_at j).
Proof.
  intros Hj. unfold plan. rewrite list_lookup_fmap, lookup_seqZ_lt by lia.
  simpl. f_equal. f_equal. lia.
Qed.
End Builder.

(** ** Arithmetic of one stencil *)

Lemma Qltb_lt x y : Qltb x y = true <-> (x < y)%Q.
Proof.
  unfold Qltb. rewrite negb_true_iff. split.
  - intros Hb. apply Qnot_le_lt. intros Hle. apply Qle_bool_iff in Hle. congruence.
  - intros Hlt. destruct (Qle_bool y x) eqn:E; [|reflexivity].
    apply Qle_bool_iff in E. exfalso. exact (Qlt_not_le _ _ Hlt E).
Qed.

Lemma Qltb_ge x y : Qltb x y = false <-> (y <= x)%Q.
Proof.
  unfold Qltb. rewrite negb_false_iff. apply Qle_bool_iff.
Qed.

Lemma outside_true height width y x :
  outside height width y x = true
  <-> (y < -1 \/ inject_Z height < y \/ x < -1 \/ inject_Z width < x)%Q.
Proof.
  unfold outside. rewrite !orb_true_iff, !Qltb_lt. tauto.
Qed.

Lemma outside_false height width y x :
  outside height width y x = false
  <-> (-1 <= y /\ y <= inject_Z height /\ -1 <= x /\ x <= inject_Z width)%Q.
Proof.
  unfold outside. rewrite !orb_false_iff, !Qltb_ge. tauto.
Qed.

Lemma clamp0_nonneg y : (0 <= clamp0 y)%Q.
Proof.
  unfold clamp0. destruct (Qle_bool y 0) eqn:E; [apply Qle_refl|].
  apply Qlt_le_weak, Qltb_lt. unfold Qltb. by rewrite E.
Qed.

Lemma clamp0_id y : (0 <= y)%Q -> (clamp0 y == y)%Q.
Proof.
  intros Hy. unfold clamp0. destruct (Qle_bool y 0) eqn:E; [|reflexivity].
  apply Qle_bool_iff in E. apply Qle_antisym; assumption.
Qed.

(** Truncation is the floor on non-negative numbers and the ceiling on
    negative ones. *)
Lemma to_int_floor y : (0 <= y)%Q -> to_int y = Qfloor y.
Proof.
  destruct y as [n d]. unfold Qle, to_int, Qfloor; simpl. intros Hn.
  apply Z.quot_div_nonneg; lia.
Qed.

Lemma to_int_ceiling y : (y <= 0)%Q -> to_int y = Qceiling y.
Proof.
  destruct y as [n d]. unfold Qle, to_int, Qceiling, Qfloor; simpl. intros Hn.
  rewrite <- (Z.opp_involutive n) at 1. rewrite Z.quot_opp_l by lia.
  f_equal. apply Z.quot_div_nonneg; lia.
Qed.

Lemma to_int_comp y y' : (y == y')%Q -> to_int y = to_int y'.
Proof.
  intros E. destruct (Qlt_le_dec y 0) as [Hneg|Hpos].
  - rewrite !to_int_ceiling by (rewrite <- ?E; apply Qlt_le_weak, Hneg).
    by rewrite E.
  - rewrite !to_int_floor by (rewrite <- ?E; exact Hpos). by rewrite E.
Qed.

Lemma to_int_bounds y :
  (0 <= y)%Q -> 0 <= to_int y /\ (inject_Z (to_int y) <= y < inject_Z (to_int y) + 1)%Q.
Proof.
  intros Hy. rewrite to_int_floor by exact Hy. split; [|split].
  - change 0 with (Qfloor 0). by apply Qfloor_resp_le.
  - apply Qfloor_le.
  - pose proof (Qlt_floor y) as Hlt. rewrite inject_Z_plus in Hlt. exact Hlt.
Qed.

(** The neighbouring grid lines are inside the map, ordered, and the
    fractional offset lies in [0, 1). *)
Lemma neighbours_range size y :
  1 <= size -> (0 <= y)%Q ->
  0 <= low (neighbours size y) /\ low (neighbours size y) <= high (neighbours size y)
  /\ high (neighbours size y) <= size - 1.
Proof.
  intros Hs Hy. destruct (to_int_bounds y Hy) as [Hlo _].
  unfold neighbours. destruct (Z.geb_spec (to_int y) (size - 1)); simpl; lia.
Qed.

Lemma neighbours_frac size y :
  (0 <= y)%Q ->
  (0 <= coord (neighbours size y) - inject_Z (low (neighbours size y)) < 1)%Q.
Proof.
  intros Hy. destruct (to_int_bounds y Hy) as [_ [Hle Hlt]].
  unfold neighbours. destruct (Z.geb_spec (to_int y) (size - 1)); simpl; lra.
Qed.

Lemma weights_sum width ay ax :
  (w1 (weights width ay ax) + w2 (weights width ay ax)
   + w3 (weights width ay ax) + w4 (weights width ay ax) == 1)%Q.
Proof. unfold weights; simpl. ring. Qed.

Lemma weights_nonneg width ay ax :
  (0 <= coord ay - inject_Z (low ay) < 1)%Q ->
  (0 <= coord ax - inject_Z (low ax) < 1)%Q ->
  (0 <= w1 (weights width ay ax) /\ 0 <= w2 (weights width ay ax)
   /\ 0 <= w3 (weights width ay ax) /\ 0 <= w4 (weights width ay ax))%Q.
Proof.
  intros [Hy0 Hy1] [Hx0 Hx1]. unfold weights; simpl.
  repeat split; apply Qmult_le_0_compat; lra.
Qed.

(** What the non-sentinel branch of [stencil] produces. *)
Lemma stencil_inside height width y x :
  outside height width y x = false ->
  stencil height width y x
  = weights width (neighbours height (clamp0 y)) (neighbours width (clamp0 x)).
Proof. intros E. unfold stencil. by rewrite E. Qed.

Lemma stencil_outside height width y x :
  outside height width y x = true -> stencil height width y x = PreCalc_empty.
Proof. intros E. unfold stencil. by rewrite E. Qed.

Lemma stencil_weights_sum height width y x :
  outside height width y x = false ->
  let pc := stencil height width y x in (w1 pc + w2 pc + w3 pc + w4 pc == 1)%Q.
Proof. intros E; cbv zeta. rewrite stencil_inside by exact E. apply weights_sum. Qed.

Lemma stencil_weights_nonneg height width y x :
  outside height width y x = false ->
  let pc := stencil height width y x in (0 <= w1 pc /\ 0 <= w2 pc /\ 0 <= w3 pc /\ 0 <= w4 pc)%Q.
Proof.
  intros E; cbv zeta. rewrite stencil_inside by exact E.
  apply weights_nonneg; apply neighbours_frac, clamp0_nonneg.
Qed.

Lemma term_empty v : (term v PreCalc_empty == 0)%Q.
Proof. unfold term; simpl. ring. Qed.

(** Offsets of any stencil, sentinel or not, address the channel buffer. *)
Lemma weights_pos_range height width ay ax :
  0 <= low ay -> low ay <= high ay -> high ay <= height - 1 ->
  0 <= low ax -> low ax <= high ax -> high ax <= width - 1 ->
  let pc := weights width ay ax in
  0 <= pos1 pc < height * width /\ 0 <= pos2 pc < height * width
  /\ 0 <= pos3 pc < height * width /\ 0 <= pos4 pc < height * width.
Proof. intros; unfold weights; simpl. repeat split; nia. Qed.

Lemma stencil_pos_range height width y x :
  1 <= height -> 1 <= width ->
  let pc := stencil height width y x in
  0 <= pos1 pc < height * width /\ 0 <= pos2 pc < height * width
  /\ 0 <= pos3 pc < height * width /\ 0 <= pos4 pc < height * width.
Proof.
  intros Hh Hw; cbv zeta. unfold stencil. destruct (outside height width y x).
  - simpl. nia.
  - pose proof (neighbours_range height (clamp0 y) Hh (clamp0_nonneg y)) as (? & ? & ?).
    pose proof (neighbours_range width (clamp0 x) Hw (clamp0_nonneg x)) as (? & ? & ?).
    by apply weights_pos_range.
Qed.

(** ** The reduction over one channel *)

Ltac loop_with I :=
  match goal with
  | |- context [for_int ?n ?b ?s] =>
      let st := fresh "st" in
      let Hrun := fresh "Hrun" in
      let HI := fresh "HI" in
      destruct (for_int_inv I n b s) as (st & Hrun & HI);
      [ | | | rewrite Hrun; simpl ]
  end.

Section Reduction.
Variables (L : ROIAlign) (G : Geometry) (pre_calc : list PreCalc) (ptr : list Q).

Let PH := pooled_height L.
Let PW := pooled_width L.
Let GH := roi_bin_grid_h G.
Let GW := roi_bin_grid_w G.

(** Number of stencils the two inner loops consume per cell. *)
Definition per_cell : Z := Z.max GH 0 * Z.max GW 0.

Definition add_term (acc : Q) (pc : PreCalc) : Q := (acc + term ptr pc)%Q.

(** Running value of [output_val] after [t] stencils of the cell that
    starts at [base]. *)
Definition partial_sum (base t : Z) : Q :=
  foldl add_term 0%Q (take (Z.to_nat t) (drop (Z.to_nat base) pre_calc)).

(** Value stored in the [j]-th cell of the channel. *)
Definition cell_value (j : Z) : Q :=
  (partial_sum (j * per_cell) per_cell / count G)%Q.

Definition addressable (pc : PreCalc) : Prop :=
  0 <= pos1 pc < Z.of_nat (length ptr) /\ 0 <= pos2 pc < Z.of_nat (length ptr)
  /\ 0 <= pos3 pc < Z.of_nat (length ptr) /\ 0 <= pos4 pc < Z.of_nat (length ptr).

Hypothesis HPH : 0 <= PH.
Hypothesis HPW : 0 <= PW.
Hypothesis Hpre : forall j, 0 <= j < PH * PW * per_cell ->
  exists pc, pre_calc !! Z.to_nat j = Some pc /\ addressable pc.

Lemma accumulate_step base t :
  0 <= base -> 0 <= t -> base + t < PH * PW * per_cell ->
  accumulate pre_calc ptr (partial_sum base t, base + t)
  = Done (partial_sum base (t + 1), base + (t + 1)).
Proof.
  intros Hb Ht Hlt. destruct (Hpre (base + t)) as (pc & Hpc & H1 & H2 & H3 & H4); [lia|].
  unfold accumulate. rewrite (at_Done _ _ pc) by (lia || exact Hpc). simpl.
  rewrite !peek_at by assumption. simpl. f_equal. f_equal; [|lia].
  unfold partial_sum. rewrite Z2Nat.inj_add by lia. change (Z.to_nat 1) with 1%nat.
  rewrite Nat.add_1_r.
  rewrite (take_S_r _ _ pc).
  - rewrite foldl_app. reflexivity.
  - rewrite lookup_drop, <- Z2Nat.inj_add by lia. exact Hpc.
Qed.

(** The two inner loops sum the stencils of one cell. *)
Lemma inner_loops base :
  0 <= base -> base + per_cell <= PH * PW * per_cell ->
  for_int GH (fun iy => for_int GW (fun ix => accumulate pre_calc ptr)) (0%Q, base)
  = Done (partial_sum base per_cell, base + per_cell).
Proof.
  intros Hb Hle.
  destruct (Z.le_gt_cases GH 0) as [HGH|HGH].
  { assert (E : per_cell = 0) by (unfold per_cell; rewrite Z.max_r by lia; lia).
    rewrite for_int_le0 by exact HGH. rewrite E, Z.add_0_r. reflexivity. }
  destruct (Z.le_gt_cases GW 0) as [HGW|HGW].
  { assert (E : per_cell = 0)
      by (unfold per_cell; rewrite (Z.max_r GW 0) by lia; lia).
    rewrite for_int_skip by (intros; apply for_int_le0; exact HGW).
    rewrite E, Z.add_0_r. reflexivity. }
  assert (E : per_cell = GH * GW) by (unfold per_cell; rewrite !Z.max_l by lia; lia).
  rewrite E.
  loop_with (fun iy st => st = (partial_sum base (iy * GW), base + iy * GW)).
  - lia.
  - rewrite Z.mul_0_l, Z.add_0_r. reflexivity.
  - intros iy st Hiy ->.
    loop_with (fun ix st => st = (partial_sum base (iy * GW + ix), base + (iy * GW + ix))).
    + lia.
    + by rewrite Z.add_0_r.
    + intros ix st Hix ->. eexists. split; [|reflexivity].
      rewrite accumulate_step by (rewrite ?E in *; nia). f_equal. f_equal; [f_equal|]; lia.
    + subst st. eexists. split; [reflexivity|]. f_equal; [f_equal|]; lia.
  - by subst st.
Qed.

(** Output buffer after the cells before [k] have been stored. *)
Definition stored (n : nat) (k : Z) (out : list Q) : Prop :=
  length out = n /\ forall j, 0 <= j < k -> out !! Z.to_nat j = Some (cell_value j).

Lemma store_cell n k out :
  stored n k out -> 0 <= k < Z.of_nat n ->
  stored n (k + 1) (<[Z.to_nat k := cell_value k]> out).
Proof.
  intros [Hlen Hout] Hk. split; [by rewrite length_insert|].
  intros j Hj. destruct (decide (j = k)) as [->|Hne].
  - apply list_lookup_insert_eq. lia.
  - rewrite list_lookup_insert_ne by lia. apply Hout. lia.
Qed.

Lemma pool_channel_run (out : list Q) :
  Z.of_nat (length out) = PW * PH ->
  exists out', pool_channel L G pre_calc ptr out = Done out'
               /\ stored (length out) (PH * PW) out'.
Proof.
  intros Hlen. unfold pool_channel. fold PH PW GH GW.
  assert (Hpc : 0 <= per_cell) by (unfold per_cell; lia).
  loop_with (fun ph (st : list Q * Z * Z) =>
    stored (length out) (ph * PW) (fst (fst st))
    /\ snd (fst st) = ph * PW /\ snd st = ph * PW * per_cell).
  - exact HPH.
  - simpl. repeat split; lia.
  - intros ph [[o outptr] idx] Hph (Hst & Hptr & Hidx); simpl in *. subst outptr idx.
    loop_with (fun pw (st : list Q * Z) =>
      stored (length out) (ph * PW + pw) (fst st)
      /\ snd st = (ph * PW + pw) * per_cell).
    + exact HPW.
    + simpl. rewrite Z.add_0_r. split; [exact Hst | reflexivity].
    + intros pw [o' idx] Hpw [Hst' Hidx]; simpl in *. subst idx.
      assert (0 <= ph * PW + pw < PH * PW) by nia.
      rewrite inner_loops by nia. simpl.
      rewrite assign_Done by (destruct Hst' as [-> _]; lia). simpl.
      eexists. split; [reflexivity|]. simpl. split.
      * replace (ph * PW + (pw + 1)) with (ph * PW + pw + 1) by lia.
        apply store_cell; [exact Hst' | lia].
      * lia.
    + destruct st as [o' idx]. destruct HI as [Hst' Hidx]; simpl in *. subst idx.
      eexists. split; [reflexivity|]. simpl.
      replace ((ph + 1) * PW) with (ph * PW + PW) by lia. auto.
  - destruct st as [[o outptr] idx]. destruct HI as (Hst & _). simpl in *.
    exists o. split; [reflexivity | exact Hst].
Qed.
End Reduction.

(** ** The whole forward pass *)

Lemma shape_ok_spec chans channels n :
  shape_ok chans channels n = true ->
  Z.of_nat (length chans) = channels
  /\ forall q ch, chans !! q = Some ch -> Z.of_nat (length ch) = n.
Proof.
  unfold shape_ok. rewrite andb_true_iff, Z.eqb_eq, forallb_forall.
  intros [Hlen Hall]. split; [exact Hlen|]. intros q ch Hq.
  apply Z.eqb_eq, Hall. apply list_elem_of_In, list_elem_of_lookup. eauto.
Qed.

Lemma shape_ok_insert chans channels n q ch :
  shape_ok chans channels n = true -> Z.of_nat (length ch) = n ->
  shape_ok (<[q := ch]> chans) channels n = true.
Proof.
  unfold shape_ok. rewrite !andb_true_iff, !Z.eqb_eq, !forallb_forall.
  intros [Hlen Hall] Hch. rewrite length_insert. split; [exact Hlen|].
  intros x Hx. apply list_elem_of_In, list_elem_of_lookup in Hx as [i Hi].
  destruct (decide (q = i)) as [->|Hne].
  - destruct (decide (i < length chans)%nat) as [Hlt|Hge].
    + rewrite list_lookup_insert_eq in Hi by exact Hlt. injection Hi as <-.
      by apply Z.eqb_eq.
    + rewrite list_insert_ge in Hi by lia.
      apply Hall, list_elem_of_In, list_elem_of_lookup. eauto.
  - rewrite list_lookup_insert_ne in Hi by exact Hne.
    apply Hall, list_elem_of_In, list_elem_of_lookup. eauto.
Qed.

Lemma per_cell_pos G :
  0 < roi_bin_grid_h G -> 0 < roi_bin_grid_w G ->
  per_cell G = roi_bin_grid_h G * roi_bin_grid_w G.
Proof. intros. unfold per_cell. rewrite !Z.max_l by lia. reflexivity. Qed.

Lemma per_cell_zero G :
  roi_bin_grid_h G <= 0 \/ roi_bin_grid_w G <= 0 -> per_cell G = 0.
Proof.
  intros [H|H]; unfold per_cell.
  - rewrite (Z.max_r (roi_bin_grid_h G) 0) by lia. lia.
  - rewrite (Z.max_r (roi_bin_grid_w G) 0) by lia. lia.
Qed.

Section Forward.
Variables (L : ROIAlign) (bottom_blob : Mat) (G : Geometry).

Let PH := pooled_height L.
Let PW := pooled_width L.
Let GH := roi_bin_grid_h G.
Let GW := roi_bin_grid_w G.

(** The stencil sequence shared by all channels. *)
Definition stencils : list PreCalc :=
  if (0 <? GH) && (0 <? GW)
  then plan (h bottom_blob) (w bottom_blob) PH PW GH GW
         (roi_start_h G) (roi_start_w G) (bin_size_h G) (bin_size_w G)
  else replicate (Z.to_nat (GH * GW * PW * PH)) PreCalc_empty.

Definition build : outcome (list PreCalc) :=
  do pre_calc <- vector (GH * GW * PW * PH);
  pre_calc_for_bilinear_interpolate (h bottom_blob) (w bottom_blob) PH PW GH GW
    (roi_start_h G) (roi_start_w G) (bin_size_h G) (bin_size_w G) GH GW pre_calc.

Hypothesis HPH : 0 < PH.
Hypothesis HPW : 0 < PW.

Lemma build_length_error : GH * GW < 0 -> build = LengthError.
Proof.
  intros Hneg. unfold build, vector.
  destruct (Z.ltb_spec (GH * GW * PW * PH) 0) as [_|Hge]; [reflexivity|]. nia.
Qed.

Lemma builder_run :
  0 <= GH * GW ->
  pre_calc_for_bilinear_interpolate (h bottom_blob) (w bottom_blob) PH PW GH GW
    (roi_start_h G) (roi_start_w G) (bin_size_h G) (bin_size_w G) GH GW
    (replicate (Z.to_nat (GH * GW * PW * PH)) PreCalc_empty)
  = Done stencils.
Proof.
  intros Hpos. unfold stencils, pre_calc_for_bilinear_interpolate.
  change (pre_calc_loops (h bottom_blob) (w bottom_blob) PH PW GH GW
            (roi_start_h G) (roi_start_w G) (bin_size_h G) (bin_size_w G) GH GW)
    with (loops (h bottom_blob) (w bottom_blob) PH PW GH GW
            (roi_start_h G) (roi_start_w G) (bin_size_h G) (bin_size_w G)).
  destruct (Z.ltb_spec 0 GH) as [HGH|HGH]; simpl.
  - destruct (Z.ltb_spec 0 GW) as [HGW|HGW]; simpl.
    + rewrite loops_plan; [reflexivity | lia.. |].
      rewrite length_replicate. nia.
    + rewrite loops_idle by lia. reflexivity.
  - rewrite loops_idle by lia. reflexivity.
Qed.

Lemma vector_run :
  0 <= GH * GW ->
  vector (GH * GW * PW * PH)
  = Done (replicate (Z.to_nat (GH * GW * PW * PH)) PreCalc_empty).
Proof.
  intros Hpos. unfold vector.
  destruct (Z.ltb_spec (GH * GW * PW * PH) 0) as [Hlt|Hge]; [nia | reflexivity].
Qed.

Lemma build_run : 0 <= GH * GW -> build = Done stencils.
Proof.
  intros Hpos. unfold build. rewrite vector_run by exact Hpos. simpl.
  by apply builder_run.
Qed.

(** Every stencil the reduction reads addresses the channel buffer. *)
Lemma stencils_addressable (ptr : list Q) j :
  1 <= w bottom_blob -> 1 <= h bottom_blob ->
  Z.of_nat (length ptr) = w bottom_blob * h bottom_blob ->
  0 <= j < PH * PW * per_cell G ->
  exists pc, stencils !! Z.to_nat j = Some pc /\ addressable ptr pc.
Proof.
  intros Hw Hh Hlen Hj. unfold stencils.
  destruct (Z.ltb_spec 0 GH) as [HGH|HGH]; simpl;
    [destruct (Z.ltb_spec 0 GW) as [HGW|HGW]; simpl|].
  - rewrite per_cell_pos in Hj by assumption.
    rewrite plan_lookup by lia. eexists. split; [reflexivity|].
    unfold addressable, plan_at, stencil_of. rewrite Hlen, (Z.mul_comm (w bottom_blob)).
    by apply stencil_pos_range.
  - rewrite per_cell_zero in Hj by lia. lia.
  - rewrite per_cell_zero in Hj by lia. lia.
Qed.

(** State of the output blob once the channels before [q] are done. *)
Definition pooled (bottom : list (list Q)) (q : Z) (top_blob : Mat) : Prop :=
  w top_blob = PW /\ h top_blob = PH /\ c top_blob = c bottom_blob
  /\ exists chans, data top_blob = Some chans
     /\ shape_ok chans (c bottom_blob) (PW * PH) = true
     /\ forall q', 0 <= q' < q ->
          exists ptr out, bottom !! Z.to_nat q' = Some ptr
            /\ chans !! Z.to_nat q' = Some out
            /\ stored G stencils ptr (Z.to_nat (PW * PH)) (PH * PW) out.

Lemma pool_channels_run (bottom top : list (list Q)) :
  blob_ok bottom_blob = true -> data bottom_blob = Some bottom ->
  shape_ok top (c bottom_blob) (PW * PH) = true ->
  exists top_blob,
    pool_channels L G stencils bottom_blob (c bottom_blob)
      (mkMat PW PH (c bottom_blob) (Some top)) = Done top_blob
    /\ pooled bottom (c bottom_blob) top_blob.
Proof.
  intros Hok Hdata Htop. unfold blob_ok in Hok. rewrite Hdata in Hok.
  apply andb_true_iff in Hok as [Hwh Hshape]. apply andb_true_iff in Hwh as [Hw Hh].
  apply Z.leb_le in Hw, Hh. apply shape_ok_spec in Hshape as [Hc Hchan].
  unfold pool_channels. apply (for_int_inv (pooled bottom)).
  - lia.
  - repeat split. exists top. repeat split; [exact Htop|]. intros q' Hq'. lia.
  - intros q top_blob Hq (Hw' & Hh' & Hc' & chans & Hd & Hs & Hdone).
    destruct (lookup_lt_is_Some_2 bottom (Z.to_nat q)) as [ptr Hptr]; [lia|].
    pose proof (shape_ok_spec _ _ _ Hs) as [Htc Htchan].
    destruct (lookup_lt_is_Some_2 chans (Z.to_nat q)) as [out Hout]; [lia|].
    unfold channel. rewrite Hdata, Hd.
    rewrite (at_Done _ _ ptr), (at_Done _ _ out) by (lia || assumption). simpl.
    destruct (pool_channel_run L G stencils ptr) with (out := out)
      as (out' & Hrun & Hst).
    + fold PH. lia.
    + fold PW. lia.
    + fold PH PW. intros j Hj. apply stencils_addressable; eauto.
    + fold PH PW. eauto.
    + rewrite Hrun. simpl. unfold store_channel. rewrite Hd.
      rewrite assign_Done by lia. simpl. eexists. split; [reflexivity|].
      fold PH PW in Hst.
      assert (Hlo : length out = Z.to_nat (PW * PH))
        by (apply Htchan in Hout; lia).
      rewrite Hlo in Hst. destruct Hst as [Hlen' Hcells].
      repeat split; try assumption. eexists. split; [reflexivity|]. split.
      * apply shape_ok_insert; [exact Hs | lia].
      * intros q' Hq'. destruct (decide (q' = q)) as [->|Hne].
        -- exists ptr, out'. split; [exact Hptr|]. split.
           ++ apply list_lookup_insert_eq. lia.
           ++ split; assumption.
        -- destruct (Hdone q') as (ptr' & out'' & ? & ? & ?); [lia|].
           exists ptr', out''. split; [assumption|]. split; [|assumption].
           rewrite list_lookup_insert_ne by lia. assumption.
Qed.
End Forward.

(** *** Runs of [forward] *)

Section Runs.
Variables (L : ROIAlign) (bottom_blob : Mat) (r0 r1 r2 r3 : Q) (rest : list Q).
Variable blob_allocator : Z -> Z -> Z -> option (list (list Q)).

Let PH := pooled_height L.
Let PW := pooled_width L.
Let G := geometry L r0 r1 r2 r3.
Let roi_blob := r0 :: r1 :: r2 :: r3 :: rest.


Variable buf : list (list Q).
Hypothesis HPH : 0 < PH.
Hypothesis HPW : 0 < PW.
Hypothesis Halloc : blob_allocator PW PH (c bottom_blob) = Some buf.

Lemma forward_allocated :
  forward L bottom_blob roi_blob blob_allocator
  = (do pre_calc <- vector (roi_bin_grid_h G * roi_bin_grid_w G * PW * PH);
     do pre_calc <- pre_calc_for_bilinear_interpolate (h bottom_blob) (w bottom_blob)
                      PH PW (roi_bin_grid_h G) (roi_bin_grid_w G)
                      (roi_start_h G) (roi_start_w G) (bin_size_h G) (bin_size_w G)
                      (roi_bin_grid_h G) (roi_bin_grid_w G) pre_calc;
     do top_blob <- pool_channels L G pre_calc bottom_blob (c bottom_blob)
                      (mkMat PW PH (c bottom_blob) (Some buf));
     Done (0, top_blob)).
Proof. unfold forward, create. fold PH PW. rewrite Halloc. reflexivity. Qed.

Lemma forward_length_error :
  roi_bin_grid_h G * roi_bin_grid_w G < 0 ->
  forward L bottom_blob roi_blob blob_allocator = LengthError.
Proof.
  intros Hneg. rewrite forward_allocated. unfold vector.
  destruct (Z.ltb_spec (roi_bin_grid_h G * roi_bin_grid_w G * PW * PH) 0) as [_|Hge];
    [reflexivity | nia].
Qed.

Hypothesis Hbottom : blob_ok bottom_blob = true.
Hypothesis Hbuf : shape_ok buf (c bottom_blob) (PW * PH) = true.

Lemma forward_run :
  0 <= roi_bin_grid_h G * roi_bin_grid_w G ->
  exists bottom top_blob,
    data bottom_blob = Some bottom
    /\ forward L bottom_blob roi_blob blob_allocator = Done (0, top_blob)
    /\ pooled L bottom_blob G bottom (c bottom_blob) top_blob.
Proof.
  intros Hpos.
  assert (exists bottom, data bottom_blob = Some bottom) as [bottom Hdata].
  { unfold blob_ok in Hbottom. destruct (data bottom_blob); [eauto|].
    by rewrite andb_false_r in Hbottom. }
  destruct (pool_channels_run L bottom_blob G HPH HPW bottom buf Hbottom Hdata Hbuf)
    as (top_blob & Hrun & Hpooled).
  exists bottom, top_blob. split; [exact Hdata|]. split; [|exact Hpooled].
  rewrite forward_allocated. unfold PH, PW.
  rewrite (vector_run L G HPH HPW Hpos). cbn [bind].
  rewrite (builder_run L bottom_blob G HPH HPW Hpos). cbn [bind].
  rewrite Hrun. reflexivity.
Qed.

(** Every cell of the output holds the value computed for it. *)
Lemma forward_cells :
  0 <= roi_bin_grid_h G * roi_bin_grid_w G ->
  exists top_blob,
    forward L bottom_blob roi_blob blob_allocator = Done (0, top_blob)
    /\ w top_blob = PW /\ h top_blob = PH /\ c top_blob = c bottom_blob
    /\ forall q ph pw, 0 <= q < c bottom_blob -> 0 <= ph < PH -> 0 <= pw < PW ->
         exists ptr, channel bottom_blob q = Done ptr
           /\ Z.of_nat (length ptr) = w bottom_blob * h bottom_blob
           /\ cell top_blob q ph pw
              = Done (cell_value G (stencils L bottom_blob G) ptr (ph * PW + pw)).
Proof.
  intros Hpos.
  destruct (forward_run Hpos)
    as (bottom & top_blob & Hdata & Hrun & Hw & Hh & Hc & chans & Hd & Hs & Hcells).
  exists top_blob. repeat split; try assumption.
  intros q ph pw Hq Hph Hpw.
  destruct (Hcells q Hq) as (ptr & out & Hptr & Hout & Hlen & Hval).
  exists ptr. unfold cell, channel. rewrite Hdata, Hd.
  rewrite (at_Done _ _ ptr), (at_Done _ _ out) by (lia || assumption). simpl.
  split; [reflexivity|]. split.
  - unfold blob_ok in Hbottom. rewrite Hdata in Hbottom.
    apply andb_true_iff in Hbottom as [_ Hshape].
    apply shape_ok_spec in Hshape as [_ Hchan]. eauto.
  - rewrite Hw. fold PH PW in Hval. apply at_Done; [nia|]. apply Hval. nia.
Qed.
End Runs.

(** ** Properties of the sampling-plan builder *)

Lemma builder_plan height width PH PW GH GW rsh rsw bsh bsw (pre_calc : list PreCalc) :
  0 <= PH -> 0 <= PW -> 0 <= GH -> 0 <= GW ->
  Z.of_nat (length pre_calc) = PH * PW * GH * GW ->
  pre_calc_for_bilinear_interpolate height width PH PW GH GW rsh rsw bsh bsw GH GW pre_calc
  = Done (plan height width PH PW GH GW rsh rsw bsh bsw).
Proof.
  intros HPH HPW HGH HGW Hlen. unfold pre_calc_for_bilinear_interpolate.
  pose proof (loops_plan height width PH PW GH GW rsh rsw bsh bsw pre_calc
                HPH HPW HGH HGW Hlen) as Hrun.
  unfold loops in Hrun. rewrite Hrun. reflexivity.
Qed.

Lemma plan_slot height width PH PW GH GW rsh rsw bsh bsw ph pw iy ix :
  0 <= ph < PH -> 0 <= pw < PW -> 0 <= iy < GH -> 0 <= ix < GW ->
  plan height width PH PW GH GW rsh rsw bsh bsw !! Z.to_nat (slot PW GH GW ph pw iy ix)
  = Some (stencil height width (sample_coord rsh ph bsh iy GH)
            (sample_coord rsw pw bsw ix GW)).
Proof.
  intros Hph Hpw Hiy Hix.
  rewrite plan_lookup by (by apply slot_range).
  rewrite plan_at_slot by assumption. reflexivity.
Qed.

(** C2: the builder emits exactly [pooled_height * pooled_width *
    roi_bin_grid_h * roi_bin_grid_w] stencils (the final value of
    [pre_calc_index], and the size of the sequence), the stencil of sample
    [(ph, pw, iy, ix)] sits at its row-major position
    [((ph * pooled_width + pw) * roi_bin_grid_h + iy) * roi_bin_grid_w + ix],
    and it is the stencil of the point
    [y = roi_start_h + ph*bin_size_h + (iy+0.5)*bin_size_h/roi_bin_grid_h],
    [x = roi_start_w + pw*bin_size_w + (ix+0.5)*bin_size_w/roi_bin_grid_w]. *)
Theorem builder_row_major
    height width pooled_height pooled_width roi_bin_grid_h roi_bin_grid_w
    roi_start_h roi_start_w bin_size_h bin_size_w (pre_calc : list PreCalc) :
  0 <= pooled_height -> 0 <= pooled_width ->
  0 <= roi_bin_grid_h -> 0 <= roi_bin_grid_w ->
  Z.of_nat (length pre_calc)
  = pooled_height * pooled_width * roi_bin_grid_h * roi_bin_grid_w ->
  exists out,
    pre_calc_loops height width pooled_height pooled_width roi_bin_grid_h roi_bin_grid_w
      roi_start_h roi_start_w bin_size_h bin_size_w roi_bin_grid_h roi_bin_grid_w pre_calc
    = Done (out, pooled_height * pooled_width * roi_bin_grid_h * roi_bin_grid_w)
    /\ pre_calc_for_bilinear_interpolate height width pooled_height pooled_width
         roi_bin_grid_h roi_bin_grid_w roi_start_h roi_start_w bin_size_h bin_size_w
         roi_bin_grid_h roi_bin_grid_w pre_calc
       = Done out
    /\ Z.of_nat (length out)
       = pooled_height * pooled_width * roi_bin_grid_h * roi_bin_grid_w
    /\ forall ph pw iy ix,
         0 <= ph < pooled_height -> 0 <= pw < pooled_width ->
         0 <= iy < roi_bin_grid_h -> 0 <= ix < roi_bin_grid_w ->
         let y := (roi_start_h + inject_Z ph * bin_size_h
                   + (inject_Z iy + (1 # 2)) * bin_size_h / inject_Z roi_bin_grid_h)%Q in
         let x := (roi_start_w + inject_Z pw * bin_size_w
                   + (inject_Z ix + (1 # 2)) * bin_size_w / inject_Z roi_bin_grid_w)%Q in
         out !! Z.to_nat (((ph * pooled_width + pw) * roi_bin_grid_h + iy)
                          * roi_bin_grid_w + ix)
         = Some (stencil height width y x).
Proof.
  intros HPH HPW HGH HGW Hlen.
  exists (plan height width pooled_height pooled_width roi_bin_grid_h roi_bin_grid_w
            roi_start_h roi_start_w bin_size_h bin_size_w).
  split; [|split; [|split]].
  - by apply loops_plan.
  - by apply builder_plan.
  - rewrite plan_length. lia.
  - intros ph pw iy ix Hph Hpw Hiy Hix y x.
    apply (plan_slot height width pooled_height pooled_width roi_bin_grid_h
             roi_bin_grid_w roi_start_h roi_start_w bin_size_h bin_size_w
             ph pw iy ix); assumption.
Qed.

Lemma builder_row_major_witness :
  exists out,
    pre_calc_loops 4 4 2 2 2 2 0 0 2 2 2 2 (replicate 16 PreCalc_empty) = Done (out, 2 * 2 * 2 * 2)
    /\ pre_calc_for_bilinear_interpolate 4 4 2 2 2 2 0 0 2 2 2 2
         (replicate 16 PreCalc_empty) = Done out
    /\ Z.of_nat (length out) = 2 * 2 * 2 * 2
    /\ forall ph pw iy ix,
         0 <= ph < 2 -> 0 <= pw < 2 -> 0 <= iy < 2 -> 0 <= ix < 2 ->
         let y := (0 + inject_Z ph * 2 + (inject_Z iy + (1 # 2)) * 2 / inject_Z 2)%Q in
         let x := (0 + inject_Z pw * 2 + (inject_Z ix + (1 # 2)) * 2 / inject_Z 2)%Q in
         out !! Z.to_nat (((ph * 2 + pw) * 2 + iy) * 2 + ix) = Some (stencil 4 4 y x).
Proof.
  apply (builder_row_major 4 4 2 2 2 2 0 0 2 2 (replicate 16 PreCalc_empty));
    [lia | lia | lia | lia | reflexivity].
Defined.

Lemma cell_stencils_length (pre_calc : list PreCalc) PH PW GH GW ph pw :
  0 <= GH -> 0 <= GW -> 0 <= ph < PH -> 0 <= pw < PW ->
  Z.of_nat (length pre_calc) = PH * PW * GH * GW ->
  length (cell_stencils pre_calc PW GH GW ph pw) = Z.to_nat (GH * GW).
Proof.
  intros HGH HGW Hph Hpw Hlen. unfold cell_stencils.
  rewrite length_take, length_drop.
  assert (0 <= ph * PW + pw < PH * PW) by nia.
  assert (0 <= GH * GW) by nia.
  assert ((ph * PW + pw) * (GH * GW) + GH * GW <= PH * PW * GH * GW) by nia.
  assert (0 <= (ph * PW + pw) * (GH * GW)) by nia.
  lia.
Qed.

(** C3: a sample outside [[-1, height] x [-1, width]] gets the all-zero
    sentinel, which adds 0 to the sum of its cell while keeping its place
    among the [roi_bin_grid_h * roi_bin_grid_w] stencils of the cell; any
    other sample has its coordinates clamped to be non-negative, gets a
    stencil different from the sentinel, and its four weights are
    non-negative and sum to 1. *)
Theorem builder_boundary_policy
    height width pooled_height pooled_width roi_bin_grid_h roi_bin_grid_w
    roi_start_h roi_start_w bin_size_h bin_size_w (pre_calc : list PreCalc) :
  0 <= pooled_height -> 0 <= pooled_width ->
  0 <= roi_bin_grid_h -> 0 <= roi_bin_grid_w ->
  Z.of_nat (length pre_calc)
  = pooled_height * pooled_width * roi_bin_grid_h * roi_bin_grid_w ->
  exists out,
    pre_calc_for_bilinear_interpolate height width pooled_height pooled_width
      roi_bin_grid_h roi_bin_grid_w roi_start_h roi_start_w bin_size_h bin_size_w
      roi_bin_grid_h roi_bin_grid_w pre_calc
    = Done out
    /\ forall ph pw iy ix,
         0 <= ph < pooled_height -> 0 <= pw < pooled_width ->
         0 <= iy < roi_bin_grid_h -> 0 <= ix < roi_bin_grid_w ->
         let y := sample_coord roi_start_h ph bin_size_h iy roi_bin_grid_h in
         let x := sample_coord roi_start_w pw bin_size_w ix roi_bin_grid_w in
         exists pc,
           out !! Z.to_nat (slot pooled_width roi_bin_grid_h roi_bin_grid_w ph pw iy ix)
           = Some pc
           /\ length (cell_stencils out pooled_width roi_bin_grid_h roi_bin_grid_w ph pw)
              = Z.to_nat (roi_bin_grid_h * roi_bin_grid_w)
           /\ ((y < -1 \/ inject_Z height < y \/ x < -1 \/ inject_Z width < x)%Q ->
               pc = PreCalc_empty /\ forall v, (term v pc == 0)%Q)
           /\ (~ (y < -1 \/ inject_Z height < y \/ x < -1 \/ inject_Z width < x)%Q ->
               (0 <= clamp0 y)%Q /\ (0 <= clamp0 x)%Q
               /\ ((0 <= y)%Q -> clamp0 y == y)%Q /\ ((0 <= x)%Q -> clamp0 x == x)%Q
               /\ pc = weights width (neighbours height (clamp0 y))
                                     (neighbours width (clamp0 x))
               /\ pc <> PreCalc_empty
               /\ (0 <= w1 pc)%Q /\ (0 <= w2 pc)%Q /\ (0 <= w3 pc)%Q /\ (0 <= w4 pc)%Q
               /\ (w1 pc + w2 pc + w3 pc + w4 pc == 1)%Q).
Proof.
  intros HPH HPW HGH HGW Hlen.
  exists (plan height width pooled_height pooled_width roi_bin_grid_h roi_bin_grid_w
            roi_start_h roi_start_w bin_size_h bin_size_w).
  split; [by apply builder_plan|].
  intros ph pw iy ix Hph Hpw Hiy Hix y x.
  exists (stencil height width y x). split; [by apply plan_slot|]. split.
  { apply (cell_stencils_length _ pooled_height); try assumption.
    rewrite plan_length. lia. }
  split.
  - intros Hout. apply outside_true in Hout.
    rewrite stencil_outside by exact Hout. split; [reflexivity|]. apply term_empty.
  - intros Hin.
    assert (E : outside height width y x = false).
    { destruct (outside height width y x) eqn:E; [|reflexivity].
      apply outside_true in E. contradiction. }
    pose proof (stencil_weights_nonneg height width y x E) as (H1 & H2 & H3 & H4).
    pose proof (stencil_weights_sum height width y x E) as Hsum.
    split; [apply clamp0_nonneg|]. split; [apply clamp0_nonneg|].
    split; [|split; [|split; [by apply stencil_inside|]]].
    + apply clamp0_id.
    + apply clamp0_id.
    + split; [|auto].
      intros Hpc. rewrite Hpc in Hsum. simpl in Hsum. discriminate Hsum.
Qed.

Lemma builder_boundary_policy_witness :
  exists out,
    pre_calc_for_bilinear_interpolate 4 4 1 1 2 2 (-3) 0 4 4 2 2
      (replicate 4 PreCalc_empty) = Done out
    /\ forall ph pw iy ix,
         0 <= ph < 1 -> 0 <= pw < 1 -> 0 <= iy < 2 -> 0 <= ix < 2 ->
         let y := sample_coord (-3) ph 4 iy 2 in
         let x := sample_coord 0 pw 4 ix 2 in
         exists pc,
           out !! Z.to_nat (slot 1 2 2 ph pw iy ix) = Some pc
           /\ length (cell_stencils out 1 2 2 ph pw) = Z.to_nat (2 * 2)
           /\ ((y < -1 \/ inject_Z 4 < y \/ x < -1 \/ inject_Z 4 < x)%Q ->
               pc = PreCalc_empty /\ forall v, (term v pc == 0)%Q)
           /\ (~ (y < -1 \/ inject_Z 4 < y \/ x < -1 \/ inject_Z 4 < x)%Q ->
               (0 <= clamp0 y)%Q /\ (0 <= clamp0 x)%Q
               /\ ((0 <= y)%Q -> clamp0 y == y)%Q /\ ((0 <= x)%Q -> clamp0 x == x)%Q
               /\ pc = weights 4 (neighbours 4 (clamp0 y)) (neighbours 4 (clamp0 x))
               /\ pc <> PreCalc_empty
               /\ (0 <= w1 pc)%Q /\ (0 <= w2 pc)%Q /\ (0 <= w3 pc)%Q /\ (0 <= w4 pc)%Q
               /\ (w1 pc + w2 pc + w3 pc + w4 pc == 1)%Q).
Proof.
  apply (builder_boundary_policy 4 4 1 1 2 2 (-3) 0 4 4 (replicate 4 PreCalc_empty));
    [lia | lia | lia | lia | reflexivity].
Defined.




(** ** Properties of the forward pass *)

Lemma foldl_add_term (v : list Q) (l : list PreCalc) (a : Q) :
  (foldl (add_term v) a l == a + Qsum (term v <$> l))%Q.
Proof.
  revert a. induction l as [|pc l IH]; intros a.
  - change (a == a + 0)%Q. ring.
  - change (foldl (add_term v) (add_term v a pc) l
            == a + (term v pc + Qsum (term v <$> l)))%Q.
    rewrite IH. unfold add_term. ring.
Qed.






Lemma Qmax_spec a b :
  ((a < b)%Q -> Qmax a b = b) /\ ((b <= a)%Q -> Qmax a b = a).
Proof.
  unfold Qmax. destruct (Qltb a b) eqn:E.
  - apply Qltb_lt in E. split; [reflexivity|]. intros Hle.
    exfalso. exact (Qlt_not_le _ _ E Hle).
  - apply Qltb_ge in E. split; [|reflexivity]. intros Hlt.
    exfalso. exact (Qlt_not_le _ _ Hlt E).
Qed.

Lemma Qmax_ub a b : (b <= Qmax a b)%Q.
Proof.
  unfold Qmax. destruct (Qltb a b) eqn:E; [apply Qle_refl|]. by apply Qltb_ge.
Qed.

(** C5: the quantities derived from the ROI box: the half-pixel offset,
    the scaled corners, the extent (raised to at least 1 exactly when
    [aligned] is false) and the bin sizes. *)
Theorem roi_geometry_formulas (L : ROIAlign) (x1 y1 x2 y2 : Q) :
  let G := geometry L x1 y1 x2 y2 in
  let offset := if aligned L then (1 # 2)%Q else 0%Q in
  let extent (d : Q) := if aligned L then d else if Qltb d 1 then 1%Q else d in
  roi_start_w G = (x1 * spatial_scale L - offset)%Q
  /\ roi_start_h G = (y1 * spatial_scale L - offset)%Q
  /\ roi_end_w G = (x2 * spatial_scale L - offset)%Q
  /\ roi_end_h G = (y2 * spatial_scale L - offset)%Q
  /\ roi_width G = extent (roi_end_w G - roi_start_w G)%Q
  /\ roi_height G = extent (roi_end_h G - roi_start_h G)%Q
  /\ bin_size_w G = (roi_width G / inject_Z (pooled_width L))%Q
  /\ bin_size_h G = (roi_height G / inject_Z (pooled_height L))%Q
  /\ (if aligned L
      then (roi_width G == (x2 - x1) * spatial_scale L)%Q
           /\ (roi_height G == (y2 - y1) * spatial_scale L)%Q
      else (1 <= roi_width G)%Q /\ (1 <= roi_height G)%Q
           /\ ((x2 - x1) * spatial_scale L <= roi_width G)%Q
           /\ ((y2 - y1) * spatial_scale L <= roi_height G)%Q
           /\ ((1 <= (x2 - x1) * spatial_scale L)%Q ->
               (roi_width G == (x2 - x1) * spatial_scale L)%Q)
           /\ ((1 <= (y2 - y1) * spatial_scale L)%Q ->
               (roi_height G == (y2 - y1) * spatial_scale L)%Q)).
Proof.
  intros G offset extent. subst G offset extent. unfold geometry, offset_of. simpl.
  repeat (split; [destruct (aligned L); reflexivity|]).
  destruct (aligned L); simpl.
  - split; ring.
  - unfold Qmax.
    set (dw := (x2 * spatial_scale L - 0 - (x1 * spatial_scale L - 0))%Q).
    set (dh := (y2 * spatial_scale L - 0 - (y1 * spatial_scale L - 0))%Q).
    assert (Ew : (dw == (x2 - x1) * spatial_scale L)%Q) by (unfold dw; ring).
    assert (Eh : (dh == (y2 - y1) * spatial_scale L)%Q) by (unfold dh; ring).
    rewrite <- Ew, <- Eh.
    destruct (Qltb dw 1) eqn:Hw; [apply Qltb_lt in Hw | apply Qltb_ge in Hw];
      (destruct (Qltb dh 1) eqn:Hh; [apply Qltb_lt in Hh | apply Qltb_ge in Hh]);
      repeat split; intros; lra.
Qed.

(** *** Sums over the samples of a cell *)

Lemma Qsum_app (l1 l2 : list Q) : (Qsum (l1 ++ l2) == Qsum l1 + Qsum l2)%Q.
Proof.
  induction l1 as [|x l1 IH].
  - change (Qsum l2 == 0 + Qsum l2)%Q. ring.
  - change (x + Qsum (l1 ++ l2) == x + Qsum l1 + Qsum l2)%Q. rewrite IH. ring.
Qed.

Lemma Qsum_fmap_ext {A} (f g : A -> Q) (l : list A) :
  (forall a, a ∈ l -> (f a == g a)%Q) -> (Qsum (f <$> l) == Qsum (g <$> l))%Q.
Proof.
  induction l as [|a l IH]; intros Hfg; [reflexivity|].
  change (f a + Qsum (f <$> l) == g a + Qsum (g <$> l))%Q.
  rewrite IH by (intros; apply Hfg; by right). rewrite Hfg by left. reflexivity.
Qed.

Lemma Qsum_const {A} (f : A -> Q) (l : list A) (v : Q) :
  (forall a, a ∈ l -> (f a == v)%Q) ->
  (Qsum (f <$> l) == inject_Z (Z.of_nat (length l)) * v)%Q.
Proof.
  induction l as [|a l IH]; intros Hf.
  - change (0 == inject_Z 0 * v)%Q. ring.
  - change (f a + Qsum (f <$> l) == inject_Z (Z.of_nat (S (length l))) * v)%Q.
    rewrite IH by (intros; apply Hf; by right). rewrite Hf by left.
    rewrite Nat2Z.inj_succ, <- Z.add_1_r, inject_Z_plus. ring.
Qed.

(** A sum over [a * b] consecutive indices, read row by row. *)
Lemma Qsum_rows_nat (g : Z -> Q) (a : nat) (b : Z) :
  0 <= b ->
  (Qsum (g <$> seqZ 0 (Z.of_nat a * b))
   == Qsum ((fun iy => Qsum ((fun ix => g (iy * b + ix)%Z) <$> seqZ 0 b))
              <$> seqZ 0 (Z.of_nat a)))%Q.
Proof.
  intros Hb. induction a as [|a IH].
  - reflexivity.
  - rewrite seqZ_S, fmap_app, Qsum_app, <- IH.
    replace (Z.of_nat (S a) * b) with (Z.of_nat a * b + b) by lia.
    rewrite seqZ_app, fmap_app, Qsum_app by nia.
    apply Qplus_comp; [reflexivity|].
    replace (0 + Z.of_nat a * b) with (Z.of_nat a * b + 0) by lia.
    rewrite <- fmap_add_seqZ, <- list_fmap_compose.
    change (Qsum ((g ∘ Z.add (Z.of_nat a * b)) <$> seqZ 0 b)
            == Qsum ((fun ix => g ((0 + Z.of_nat a) * b + ix)%Z) <$> seqZ 0 b) + 0)%Q.
    rewrite Qplus_0_r. apply Qsum_fmap_ext. intros ix _. simpl.
    by rewrite Z.add_0_l.
Qed.

Lemma Qsum_rows (g : Z -> Q) (a b : Z) :
  0 <= a -> 0 <= b ->
  (Qsum (g <$> seqZ 0 (a * b))
   == Qsum ((fun iy => Qsum ((fun ix => g (iy * b + ix)%Z) <$> seqZ 0 b))
              <$> seqZ 0 a))%Q.
Proof.
  intros Ha Hb. pose proof (Qsum_rows_nat g (Z.to_nat a) b Hb) as H.
  rewrite Z2Nat.id in H by exact Ha. exact H.
Qed.

(** The stencils of one cell, as a function of the index inside the cell. *)
Lemma cell_slice height width PH PW GH GW rsh rsw bsh bsw j :
  0 <= GH * GW -> 0 <= j -> j * (GH * GW) + GH * GW <= PH * PW * GH * GW ->
  take (Z.to_nat (GH * GW))
    (drop (Z.to_nat (j * (GH * GW))) (plan height width PH PW GH GW rsh rsw bsh bsw))
  = (fun t => plan_at height width PW GH GW rsh rsw bsh bsw (j * (GH * GW) + t))
      <$> seqZ 0 (GH * GW).
Proof.
  intros Hn Hj Hle. apply list_eq. intros i.
  rewrite list_lookup_fmap.
  destruct (decide (Z.of_nat i < GH * GW)) as [Hi|Hi].
  - rewrite lookup_take_lt, lookup_drop by lia.
    rewrite lookup_seqZ_lt by lia. simpl.
    replace (Z.to_nat (j * (GH * GW)) + i)%nat
      with (Z.to_nat (j * (GH * GW) + Z.of_nat i)) by nia.
    rewrite plan_lookup by nia. by rewrite Z.add_0_l.
  - rewrite lookup_take_ge, lookup_seqZ_ge by lia. reflexivity.
Qed.

Lemma cell_value_mean L bottom_blob r0 r1 r2 r3 (v : list Q) ph pw :
  let G := geometry L r0 r1 r2 r3 in
  0 < pooled_height L -> 0 < pooled_width L ->
  0 < roi_bin_grid_h G -> 0 < roi_bin_grid_w G ->
  0 <= ph < pooled_height L -> 0 <= pw < pooled_width L ->
  (cell_value G (stencils L bottom_blob G) v (ph * pooled_width L + pw)
   == cell_mean v (h bottom_blob) (w bottom_blob)
        (roi_start_h G) (roi_start_w G) (bin_size_h G) (bin_size_w G)
        (roi_bin_grid_h G) (roi_bin_grid_w G) ph pw)%Q.
Proof.
  intros G HPH HPW HGH HGW Hph Hpw.
  unfold cell_value, cell_mean, partial_sum.
  assert (Hcount : count G
                   = inject_Z (Z.max (roi_bin_grid_h G * roi_bin_grid_w G) 1))
    by reflexivity.
  rewrite Hcount, Z.max_l by nia. apply Qmult_comp; [|reflexivity].
  rewrite foldl_add_term, Qplus_0_l, (per_cell_pos G) by assumption.
  unfold stencils.
  rewrite (proj2 (Z.ltb_lt 0 (roi_bin_grid_h G))),
          (proj2 (Z.ltb_lt 0 (roi_bin_grid_w G))) by assumption.
  cbn [andb].
  assert (Hj : 0 <= ph * pooled_width L + pw
               /\ ph * pooled_width L + pw + 1 <= pooled_height L * pooled_width L)
    by nia.
  assert (Hn : 0 <= roi_bin_grid_h G * roi_bin_grid_w G) by nia.
  rewrite cell_slice; [| exact Hn | lia |].
  2:{ pose proof (Z.mul_le_mono_nonneg_r _ _ _ Hn (proj2 Hj)). lia. }
  rewrite <- list_fmap_compose.
  rewrite Qsum_rows by lia.
  apply Qsum_fmap_ext. intros iy Hiy. apply elem_of_seqZ in Hiy.
  apply Qsum_fmap_ext. intros ix Hix. apply elem_of_seqZ in Hix.
  unfold compose, bilinear.
  replace ((ph * pooled_width L + pw) * (roi_bin_grid_h G * roi_bin_grid_w G)
           + (iy * roi_bin_grid_w G + ix))
    with (slot (pooled_width L) (roi_bin_grid_h G) (roi_bin_grid_w G) ph pw iy ix)
    by (unfold slot; ring).
  rewrite plan_at_slot by lia. reflexivity.
Qed.

(** *** Sample counts *)

Lemma Qceiling_pos x : (0 < x)%Q -> 1 <= Qceiling x.
Proof.
  intros Hx. pose proof (Qle_ceiling x) as Hle.
  assert (H : (inject_Z 0 < inject_Z (Qceiling x))%Q)
    by (eapply Qlt_le_trans; [exact Hx | exact Hle]).
  rewrite <- Zlt_Qlt in H. lia.
Qed.

Lemma Qdiv_pos a (p : Z) : (0 < a)%Q -> 0 < p -> (0 < a / inject_Z p)%Q.
Proof.
  intros Ha Hp. apply Qlt_shift_div_l.
  - change 0%Q with (inject_Z 0). by rewrite <- Zlt_Qlt.
  - by rewrite Qmult_0_l.
Qed.

Lemma legacy_extent L r0 r1 r2 r3 :
  aligned L = false ->
  (1 <= roi_height (geometry L r0 r1 r2 r3))%Q
  /\ (1 <= roi_width (geometry L r0 r1 r2 r3))%Q.
Proof. intros Ha. unfold geometry; simpl. rewrite Ha; simpl. split; apply Qmax_ub. Qed.

(** Conditions under which every bin gets at least one sample per axis. *)
Lemma grid_positive L r0 r1 r2 r3 :
  let G := geometry L r0 r1 r2 r3 in
  0 < pooled_height L -> 0 < pooled_width L ->
  0 < sampling_ratio L \/ aligned L = false
  \/ (0 < roi_height G /\ 0 < roi_width G)%Q ->
  1 <= roi_bin_grid_h G /\ 1 <= roi_bin_grid_w G.
Proof.
  intros G HPH HPW Hcase.
  assert (Hgrid : 0 < sampling_ratio L \/ (0 < roi_height G /\ 0 < roi_width G)%Q).
  { destruct Hcase as [H|[H|H]]; [by left | right | by right].
    destruct (legacy_extent L r0 r1 r2 r3 H) as [Hh Hw]. subst G. split; lra. }
  assert (Eh : roi_bin_grid_h G
               = if sampling_ratio L >? 0 then sampling_ratio L
                 else Qceiling (roi_height G / inject_Z (pooled_height L)))
    by reflexivity.
  assert (Ew : roi_bin_grid_w G
               = if sampling_ratio L >? 0 then sampling_ratio L
                 else Qceiling (roi_width G / inject_Z (pooled_width L)))
    by reflexivity.
  rewrite Eh, Ew. destruct (Z.gtb_spec (sampling_ratio L) 0) as [Hs|Hs]; [lia|].
  destruct Hgrid as [H|[Hh Hw]]; [lia|].
  split; apply Qceiling_pos, Qdiv_pos; assumption.
Qed.




(** *** Constant feature maps *)

Lemma forallb_seqZ (f : Z -> bool) n i :
  forallb f (seqZ 0 n) = true -> 0 <= i < n -> f i = true.
Proof.
  intros Hall Hi. rewrite forallb_forall in Hall. apply Hall.
  apply list_elem_of_In, elem_of_seqZ. lia.
Qed.

Lemma all_inside_spec height width PH PW GH GW rsh rsw bsh bsw ph pw iy ix :
  all_inside height width PH PW GH GW rsh rsw bsh bsw = true ->
  0 <= ph < PH -> 0 <= pw < PW -> 0 <= iy < GH -> 0 <= ix < GW ->
  outside height width (sample_coord rsh ph bsh iy GH) (sample_coord rsw pw bsw ix GW)
  = false.
Proof.
  intros Hall Hph Hpw Hiy Hix. unfold all_inside in Hall.
  apply (forallb_seqZ _ _ ph) in Hall; [|exact Hph].
  apply (forallb_seqZ _ _ pw) in Hall; [|exact Hpw].
  apply (forallb_seqZ _ _ iy) in Hall; [|exact Hiy].
  apply (forallb_seqZ _ _ ix) in Hall; [|exact Hix].
  by apply negb_true_iff in Hall.
Qed.

Lemma constant_peek (ptr : list Q) (v : Q) i :
  forallb (fun x => Qeq_bool x v) ptr = true ->
  0 <= i < Z.of_nat (length ptr) -> (peek ptr i == v)%Q.
Proof.
  intros Hall Hi. unfold peek. destruct (Z.ltb_spec i 0); [lia|].
  destruct (lookup_lt_is_Some_2 ptr (Z.to_nat i)) as [x Hx]; [lia|].
  rewrite Hx. simpl. apply Qeq_bool_iff.
  rewrite forallb_forall in Hall. apply Hall.
  apply list_elem_of_In, list_elem_of_lookup. eauto.
Qed.

(** A non-sentinel bilinear sample of a constant buffer is the constant. *)
Lemma bilinear_constant (ptr : list Q) (v : Q) height width y x :
  1 <= height -> 1 <= width ->
  Z.of_nat (length ptr) = width * height ->
  forallb (fun x => Qeq_bool x v) ptr = true ->
  outside height width y x = false ->
  (bilinear ptr height width y x == v)%Q.
Proof.
  intros Hh Hw Hlen Hall E. unfold bilinear, term.
  pose proof (stencil_pos_range height width y x Hh Hw) as (H1 & H2 & H3 & H4).
  pose proof (stencil_weights_sum height width y x E) as Hsum. cbv zeta in Hsum.
  rewrite !(constant_peek ptr v) by (assumption || lia).
  transitivity ((w1 (stencil height width y x) + w2 (stencil height width y x)
                 + w3 (stencil height width y x) + w4 (stencil height width y x)) * v)%Q;
    [ring|]. rewrite Hsum. ring.
Qed.

Lemma constant_channel (m : Mat) (v : Q) q (ptr : list Q) :
  constant_blob m v = true -> channel m q = Done ptr ->
  forallb (fun x => Qeq_bool x v) ptr = true.
Proof.
  unfold constant_blob, channel. destruct (data m) as [chans|]; [|discriminate].
  intros Hall Hq. apply at_Done_inv in Hq as [_ Hq].
  rewrite forallb_forall in Hall. apply Hall.
  apply list_elem_of_In, list_elem_of_lookup. eauto.
Qed.

Lemma cell_mean_constant (ptr : list Q) (v : Q) height width rsh rsw bsh bsw
    PH PW GH GW ph pw :
  1 <= height -> 1 <= width -> 1 <= GH -> 1 <= GW ->
  Z.of_nat (length ptr) = width * height ->
  forallb (fun x => Qeq_bool x v) ptr = true ->
  all_inside height width PH PW GH GW rsh rsw bsh bsw = true ->
  0 <= ph < PH -> 0 <= pw < PW ->
  (cell_mean ptr height width rsh rsw bsh bsw GH GW ph pw == v)%Q.
Proof.
  intros Hh Hw HGH HGW Hlen Hconst Hin Hph Hpw. unfold cell_mean.
  rewrite (Qsum_const _ _ (inject_Z GW * v)).
  - rewrite length_seqZ, Z2Nat.id, inject_Z_mult by lia.
    assert (~ (inject_Z GH == 0)%Q).
    { change 0%Q with (inject_Z 0). rewrite inject_Z_injective. lia. }
    assert (~ (inject_Z GW == 0)%Q).
    { change 0%Q with (inject_Z 0). rewrite inject_Z_injective. lia. }
    field. split; assumption.
  - intros iy Hiy. apply elem_of_seqZ in Hiy.
    rewrite (Qsum_const _ _ v).
    + rewrite length_seqZ, Z2Nat.id by lia. reflexivity.
    + intros ix Hix. apply elem_of_seqZ in Hix.
      apply bilinear_constant; try assumption.
      apply (all_inside_spec height width PH PW GH GW); (assumption || lia).
Qed.

(** C7: on a feature map whose elements all equal [v], with positive
    pooled sizes, at least one sample per bin and axis, and no sample in the
    sentinel region, every output cell equals [v]. *)
Theorem constant_map_is_preserved
    (L : ROIAlign) (bottom_blob : Mat) (r0 r1 r2 r3 : Q) (rest : list Q)
    (blob_allocator : Z -> Z -> Z -> option (list (list Q))) (buf : list (list Q))
    (v : Q) :
  0 < pooled_height L -> 0 < pooled_width L ->
  blob_allocator (pooled_width L) (pooled_height L) (c bottom_blob) = Some buf ->
  blob_ok bottom_blob = true ->
  shape_ok buf (c bottom_blob) (pooled_width L * pooled_height L) = true ->
  constant_blob bottom_blob v = true ->
  1 <= roi_bin_grid_h (geometry L r0 r1 r2 r3) ->
  1 <= roi_bin_grid_w (geometry L r0 r1 r2 r3) ->
  all_inside (h bottom_blob) (w bottom_blob) (pooled_height L) (pooled_width L)
    (roi_bin_grid_h (geometry L r0 r1 r2 r3)) (roi_bin_grid_w (geometry L r0 r1 r2 r3))
    (roi_start_h (geometry L r0 r1 r2 r3)) (roi_start_w (geometry L r0 r1 r2 r3))
    (bin_size_h (geometry L r0 r1 r2 r3)) (bin_size_w (geometry L r0 r1 r2 r3)) = true ->
  exists top_blob,
    forward L bottom_blob (r0 :: r1 :: r2 :: r3 :: rest) blob_allocator = Done (0, top_blob)
    /\ forall q ph pw,
         0 <= q < c bottom_blob ->
         0 <= ph < pooled_height L -> 0 <= pw < pooled_width L ->
         exists val, cell top_blob q ph pw = Done val /\ (val == v)%Q.
Proof.
  intros HPH HPW Halloc Hbottom Hbuf Hconst HGH HGW Hin.
  destruct (forward_cells L bottom_blob r0 r1 r2 r3 rest blob_allocator buf
              HPH HPW Halloc Hbottom Hbuf)
    as (top_blob & Hrun & _ & _ & _ & Hcells); [nia|].
  exists top_blob. split; [exact Hrun|].
  intros q ph pw Hq Hph Hpw.
  destruct (Hcells q ph pw Hq Hph Hpw) as (ptr & Hptr & Hlen & Hcell).
  eexists. split; [exact Hcell|].
  rewrite cell_value_mean by (assumption || lia).
  unfold blob_ok in Hbottom.
  apply andb_true_iff in Hbottom as [Hwh _]. apply andb_true_iff in Hwh as [Hw Hh].
  apply Z.leb_le in Hw, Hh.
  apply (cell_mean_constant ptr v _ _ _ _ _ _ (pooled_height L) (pooled_width L));
    try assumption.
  by apply (constant_channel bottom_blob v q).
Qed.

Lemma constant_map_is_preserved_witness :
  exists top_blob,
    forward layer_2x2 ones4x4 [0; 0; 4; 4]%Q plain_allocator = Done (0, top_blob)
    /\ forall q ph pw,
         0 <= q < c ones4x4 ->
         0 <= ph < pooled_height layer_2x2 -> 0 <= pw < pooled_width layer_2x2 ->
         exists val, cell top_blob q ph pw = Done val /\ (val == 1)%Q.
Proof.
  apply (constant_map_is_preserved layer_2x2 ones4x4 0 0 4 4 [] plain_allocator
           (replicate 1 (replicate 4 0%Q)) 1);
    [reflexivity | reflexivity | reflexivity | reflexivity | reflexivity
    | reflexivity | vm_compute; discriminate | vm_compute; discriminate
    | vm_compute; reflexivity].
Defined.

(** *** Equal coordinates give equal stencils *)

Lemma outside_comp height width y y' x x' :
  (y == y')%Q -> (x == x')%Q -> outside height width y x = outside height width y' x'.
Proof. intros Hy Hx. unfold outside, Qltb. by rewrite Hy, Hx. Qed.

Lemma clamp0_comp y y' : (y == y')%Q -> (clamp0 y == clamp0 y')%Q.
Proof.
  intros Hy. unfold clamp0. rewrite Hy. destruct (Qle_bool y' 0); [reflexivity | exact Hy].
Qed.

Lemma neighbours_comp size y y' :
  (y == y')%Q ->
  low (neighbours size y) = low (neighbours size y')
  /\ high (neighbours size y) = high (neighbours size y')
  /\ (coord (neighbours size y) == coord (neighbours size y'))%Q.
Proof.
  intros Hy. unfold neighbours. rewrite (to_int_comp y y' Hy).
  destruct (to_int y' >=? size - 1); simpl; repeat split; (reflexivity || exact Hy).
Qed.

Lemma stencil_comp height width y y' x x' :
  (y == y')%Q -> (x == x')%Q ->
  PreCalc_equiv (stencil height width y x) (stencil height width y' x').
Proof.
  intros Hy Hx. unfold stencil. rewrite (outside_comp height width y y' x x' Hy Hx).
  destruct (outside height width y' x').
  - repeat split; reflexivity.
  - destruct (neighbours_comp height _ _ (clamp0_comp y y' Hy)) as (Ely & Ehy & Ecy).
    destruct (neighbours_comp width _ _ (clamp0_comp x x' Hx)) as (Elx & Ehx & Ecx).
    unfold PreCalc_equiv, weights; simpl. rewrite Ely, Ehy, Elx, Ehx, Ecy, Ecx.
    repeat split; reflexivity.
Qed.

Lemma term_comp (v : list Q) a b : PreCalc_equiv a b -> (term v a == term v b)%Q.
Proof.
  intros (E1 & E2 & E3 & E4 & F1 & F2 & F3 & F4). unfold term.
  rewrite E1, E2, E3, E4, F1, F2, F3, F4. reflexivity.
Qed.

Lemma sample_coord_comp s s' p b b' i g :
  (s == s')%Q -> (b == b')%Q -> (sample_coord s p b i g == sample_coord s' p b' i g)%Q.
Proof. intros Hs Hb. unfold sample_coord. by rewrite Hs, Hb. Qed.

Lemma cell_mean_comp (v : list Q) height width rsh rsh' rsw rsw' bsh bsh' bsw bsw'
    GH GW ph pw :
  (rsh == rsh')%Q -> (rsw == rsw')%Q -> (bsh == bsh')%Q -> (bsw == bsw')%Q ->
  (cell_mean v height width rsh rsw bsh bsw GH GW ph pw
   == cell_mean v height width rsh' rsw' bsh' bsw' GH GW ph pw)%Q.
Proof.
  intros H1 H2 H3 H4. unfold cell_mean. apply Qmult_comp; [|reflexivity].
  apply Qsum_fmap_ext. intros iy _. apply Qsum_fmap_ext. intros ix _.
  unfold bilinear. apply term_comp, stencil_comp; by apply sample_coord_comp.
Qed.

(** *** The half-pixel offset *)

Lemma extent_scale_nonzero (a b s : Q) : (1 <= (b - a) * s)%Q -> ~ (s == 0)%Q.
Proof. intros H Hs. rewrite Hs in H. lra. Qed.

Lemma shifted_geometry L x1 y1 x2 y2 :
  aligned L = false ->
  (1 <= (x2 - x1) * spatial_scale L)%Q -> (1 <= (y2 - y1) * spatial_scale L)%Q ->
  let G := geometry L x1 y1 x2 y2 in
  let G' := geometry (with_aligned L) (shifted L x1) (shifted L y1)
              (shifted L x2) (shifted L y2) in
  (roi_start_h G' == roi_start_h G)%Q /\ (roi_start_w G' == roi_start_w G)%Q
  /\ (bin_size_h G' == bin_size_h G)%Q /\ (bin_size_w G' == bin_size_w G)%Q
  /\ roi_bin_grid_h G' = roi_bin_grid_h G /\ roi_bin_grid_w G' = roi_bin_grid_w G.
Proof.
  intros Ha Hw Hh G G'.
  pose proof (extent_scale_nonzero _ _ _ Hw) as Hs.
  assert (Esh : (roi_start_h G' == roi_start_h G)%Q).
  { subst G G'. unfold geometry, offset_of, shifted; simpl. rewrite Ha. field. exact Hs. }
  assert (Esw : (roi_start_w G' == roi_start_w G)%Q).
  { subst G G'. unfold geometry, offset_of, shifted; simpl. rewrite Ha. field. exact Hs. }
  assert (Erw : (roi_width G' == roi_width G)%Q).
  { subst G G'. unfold geometry, offset_of, shifted; simpl. rewrite Ha. simpl.
    rewrite (proj2 (Qmax_spec _ 1)) by lra.
    field. exact Hs. }
  assert (Erh : (roi_height G' == roi_height G)%Q).
  { subst G G'. unfold geometry, offset_of, shifted; simpl. rewrite Ha. simpl.
    rewrite (proj2 (Qmax_spec _ 1)) by lra.
    field. exact Hs. }
  split; [exact Esh|]. split; [exact Esw|].
  assert (Ebh : (bin_size_h G' == bin_size_h G)%Q).
  { change (roi_height G' / inject_Z (pooled_height L)
            == roi_height G / inject_Z (pooled_height L))%Q. by rewrite Erh. }
  assert (Ebw : (bin_size_w G' == bin_size_w G)%Q).
  { change (roi_width G' / inject_Z (pooled_width L)
            == roi_width G / inject_Z (pooled_width L))%Q. by rewrite Erw. }
  split; [exact Ebh|]. split; [exact Ebw|]. split.
  - change ((if sampling_ratio L >? 0 then sampling_ratio L
             else Qceiling (roi_height G' / inject_Z (pooled_height L)))
            = (if sampling_ratio L >? 0 then sampling_ratio L
               else Qceiling (roi_height G / inject_Z (pooled_height L)))).
    by rewrite Erh.
  - change ((if sampling_ratio L >? 0 then sampling_ratio L
             else Qceiling (roi_width G' / inject_Z (pooled_width L)))
            = (if sampling_ratio L >? 0 then sampling_ratio L
               else Qceiling (roi_width G / inject_Z (pooled_width L)))).
    by rewrite Erw.
Qed.

(** C8: with [aligned] off and a scaled ROI at least one cell wide and
    high (so that the minimum-size clamp does nothing), the forward pass
    yields the same output as with [aligned] on and the four ROI coordinates
    moved by [0.5 / spatial_scale]. *)
Theorem aligned_offset_equivalence
    (L : ROIAlign) (bottom_blob : Mat) (x1 y1 x2 y2 : Q) (rest rest' : list Q)
    (blob_allocator : Z -> Z -> Z -> option (list (list Q))) (buf : list (list Q)) :
  aligned L = false ->
  0 < pooled_height L -> 0 < pooled_width L ->
  blob_allocator (pooled_width L) (pooled_height L) (c bottom_blob) = Some buf ->
  blob_ok bottom_blob = true ->
  shape_ok buf (c bottom_blob) (pooled_width L * pooled_height L) = true ->
  (1 <= roi_end_w (geometry L x1 y1 x2 y2) - roi_start_w (geometry L x1 y1 x2 y2))%Q ->
  (1 <= roi_end_h (geometry L x1 y1 x2 y2) - roi_start_h (geometry L x1 y1 x2 y2))%Q ->
  exists top_blob top_blob',
    forward L bottom_blob (x1 :: y1 :: x2 :: y2 :: rest) blob_allocator
    = Done (0, top_blob)
    /\ forward (with_aligned L) bottom_blob
         (shifted L x1 :: shifted L y1 :: shifted L x2 :: shifted L y2 :: rest')
         blob_allocator
       = Done (0, top_blob')
    /\ forall q ph pw,
         0 <= q < c bottom_blob ->
         0 <= ph < pooled_height L -> 0 <= pw < pooled_width L ->
         exists val val',
           cell top_blob q ph pw = Done val
           /\ cell top_blob' q ph pw = Done val'
           /\ (val == val')%Q.
Proof.
  intros Ha HPH HPW Halloc Hbottom Hbuf Hw Hh.
  assert (Hw' : (1 <= (x2 - x1) * spatial_scale L)%Q).
  { unfold geometry, offset_of in Hw; simpl in Hw. rewrite Ha in Hw. lra. }
  assert (Hh' : (1 <= (y2 - y1) * spatial_scale L)%Q).
  { unfold geometry, offset_of in Hh; simpl in Hh. rewrite Ha in Hh. lra. }
  destruct (shifted_geometry L x1 y1 x2 y2 Ha Hw' Hh')
    as (Esh & Esw & Ebh & Ebw & Egh & Egw).
  destruct (grid_positive L x1 y1 x2 y2 HPH HPW) as [HGH HGW]; [by right; left|].
  destruct (forward_cells L bottom_blob x1 y1 x2 y2 rest blob_allocator buf
              HPH HPW Halloc Hbottom Hbuf)
    as (top_blob & Hrun & _ & _ & _ & Hcells); [nia|].
  destruct (forward_cells (with_aligned L) bottom_blob
              (shifted L x1) (shifted L y1) (shifted L x2) (shifted L y2)
              rest' blob_allocator buf HPH HPW Halloc Hbottom Hbuf)
    as (top_blob' & Hrun' & _ & _ & _ & Hcells'); [rewrite Egh, Egw; nia|].
  exists top_blob, top_blob'. split; [exact Hrun|]. split; [exact Hrun'|].
  intros q ph pw Hq Hph Hpw.
  destruct (Hcells q ph pw Hq Hph Hpw) as (ptr & Hptr & _ & Hcell).
  destruct (Hcells' q ph pw Hq Hph Hpw) as (ptr' & Hptr' & _ & Hcell').
  rewrite Hptr in Hptr'. injection Hptr' as <-.
  eexists. eexists. split; [exact Hcell|]. split; [exact Hcell'|].
  rewrite (cell_value_mean L) by (assumption || lia).
  rewrite (cell_value_mean (with_aligned L))
    by (try rewrite Egh; try rewrite Egw; assumption || lia).
  rewrite Egh, Egw. symmetry. by apply cell_mean_comp.
Qed.

Lemma aligned_offset_equivalence_witness :
  exists top_blob top_blob',
    forward layer_legacy rows4x4 [0; 0; 8; 8]%Q plain_allocator = Done (0, top_blob)
    /\ forward (with_aligned layer_legacy) rows4x4
         [shifted layer_legacy 0; shifted layer_legacy 0;
          shifted layer_legacy 8; shifted layer_legacy 8]%Q
         plain_allocator
       = Done (0, top_blob')
    /\ forall q ph pw,
         0 <= q < c rows4x4 ->
         0 <= ph < pooled_height layer_legacy -> 0 <= pw < pooled_width layer_legacy ->
         exists val val',
           cell top_blob q ph pw = Done val
           /\ cell top_blob' q ph pw = Done val'
           /\ (val == val')%Q.
Proof.
  apply (aligned_offset_equivalence layer_legacy rows4x4 0 0 8 8 [] [] plain_allocator
           (replicate 1 (replicate 4 0%Q)));
    [reflexivity | reflexivity | reflexivity | reflexivity | reflexivity | reflexivity
    | vm_compute; discriminate | vm_compute; discriminate].
Defined.

(** *** Degenerate ROIs *)

(** C9 fails on the code: with [aligned] and adaptive sampling, a ROI whose
    bottom edge lies two cells above its top edge gives
    [roi_bin_grid_h = -2] and [roi_bin_grid_w = 2]; the output blob has been
    allocated, yet the size [-4] requested for [pre_calc] makes the vector
    constructor raise [std::length_error] and [forward] does not return. *)
Theorem inverted_roi_length_error :
  plain_allocator (pooled_width layer_adaptive) (pooled_height layer_adaptive) (c rows4x4)
  = Some [[0%Q]]
  /\ roi_bin_grid_h (geometry layer_adaptive 0 0 2 (-2)) = -2
  /\ roi_bin_grid_w (geometry layer_adaptive 0 0 2 (-2)) = 2
  /\ forward layer_adaptive rows4x4 inverted_roi plain_allocator = LengthError.
Proof. repeat split; reflexivity. Qed.

(** C10, as stated, fails: the ROI is degenerate along the vertical axis,
    but the adaptive rule yields [-2], not [0], and [forward] does not
    return success. *)
Lemma inverted_roi_grid_is_negative :
  sampling_ratio layer_adaptive <= 0
  /\ aligned layer_adaptive = true
  /\ (roi_end_h (geometry layer_adaptive 0 0 2 (-2))
      <= roi_start_h (geometry layer_adaptive 0 0 2 (-2)))%Q
  /\ roi_bin_grid_h (geometry layer_adaptive 0 0 2 (-2)) <> 0
  /\ forall top_blob,
       forward layer_adaptive rows4x4 inverted_roi plain_allocator <> Done (0, top_blob).
Proof.
  split; [vm_compute; discriminate|]. split; [reflexivity|].
  split; [vm_compute; discriminate|]. split; [vm_compute; discriminate|].
  intros top_blob. vm_compute. discriminate.
Qed.

Lemma Qceiling_zero x : (-1 < x)%Q -> (x <= 0)%Q -> Qceiling x = 0.
Proof.
  intros Hlo Hhi.
  pose proof (Qle_ceiling x) as Hle. pose proof (Qceiling_lt x) as Hlt.
  assert (H1 : (inject_Z (-1) < inject_Z (Qceiling x))%Q)
    by (eapply Qlt_le_trans; [exact Hlo | exact Hle]).
  assert (H2 : (inject_Z (Qceiling x - 1) < inject_Z 0)%Q)
    by (eapply Qlt_le_trans; [exact Hlt | exact Hhi]).
  rewrite <- Zlt_Qlt in H1, H2. lia.
Qed.

Lemma adaptive_grid_zero (d : Q) (p : Z) :
  0 < p -> (- inject_Z p < d)%Q -> (d <= 0)%Q -> Qceiling (d / inject_Z p) = 0.
Proof.
  intros Hp Hlo Hhi.
  assert (Hp' : (0 < inject_Z p)%Q)
    by (change 0%Q with (inject_Z 0); by rewrite <- Zlt_Qlt).
  apply Qceiling_zero.
  - apply Qlt_shift_div_l; [exact Hp' | lra].
  - apply Qle_shift_div_r; [exact Hp' | lra].
Qed.

(** C10 (amended): with adaptive sampling and [aligned], a scaled ROI whose
    extent along an axis is non-positive but larger than minus the pooled
    size of that axis gets [roi_bin_grid = 0] there, the stencil sequence
    is empty, and [forward] returns success with every output cell 0. *)
Theorem shallow_degenerate_roi_pools_to_zero
    (L : ROIAlign) (bottom_blob : Mat) (r0 r1 r2 r3 : Q) (rest : list Q)
    (blob_allocator : Z -> Z -> Z -> option (list (list Q))) (buf : list (list Q)) :
  0 < pooled_height L -> 0 < pooled_width L ->
  blob_allocator (pooled_width L) (pooled_height L) (c bottom_blob) = Some buf ->
  blob_ok bottom_blob = true ->
  shape_ok buf (c bottom_blob) (pooled_width L * pooled_height L) = true ->
  sampling_ratio L <= 0 -> aligned L = true ->
  (- inject_Z (pooled_height L) < roi_height (geometry L r0 r1 r2 r3)
   /\ roi_end_h (geometry L r0 r1 r2 r3) <= roi_start_h (geometry L r0 r1 r2 r3))%Q
  \/ (- inject_Z (pooled_width L) < roi_width (geometry L r0 r1 r2 r3)
      /\ roi_end_w (geometry L r0 r1 r2 r3) <= roi_start_w (geometry L r0 r1 r2 r3))%Q ->
  ((- inject_Z (pooled_height L) < roi_height (geometry L r0 r1 r2 r3)
    /\ roi_end_h (geometry L r0 r1 r2 r3) <= roi_start_h (geometry L r0 r1 r2 r3))%Q ->
   roi_bin_grid_h (geometry L r0 r1 r2 r3) = 0)
  /\ ((- inject_Z (pooled_width L) < roi_width (geometry L r0 r1 r2 r3)
       /\ roi_end_w (geometry L r0 r1 r2 r3) <= roi_start_w (geometry L r0 r1 r2 r3))%Q ->
      roi_bin_grid_w (geometry L r0 r1 r2 r3) = 0)
  /\ build L bottom_blob (geometry L r0 r1 r2 r3) = Done []
  /\ exists top_blob,
       forward L bottom_blob (r0 :: r1 :: r2 :: r3 :: rest) blob_allocator
       = Done (0, top_blob)
       /\ forall q ph pw,
            0 <= q < c bottom_blob ->
            0 <= ph < pooled_height L -> 0 <= pw < pooled_width L ->
            exists val, cell top_blob q ph pw = Done val /\ (val == 0)%Q.
Proof.
  intros HPH HPW Halloc Hbottom Hbuf Hs Ha Hcase.
  set (G := geometry L r0 r1 r2 r3) in *.
  assert (Erh : roi_height G = (roi_end_h G - roi_start_h G)%Q).
  { subst G. unfold geometry; simpl. rewrite Ha. reflexivity. }
  assert (Erw : roi_width G = (roi_end_w G - roi_start_w G)%Q).
  { subst G. unfold geometry; simpl. rewrite Ha. reflexivity. }
  assert (Egh : roi_bin_grid_h G
                = Qceiling (roi_height G / inject_Z (pooled_height L))).
  { subst G. unfold geometry; simpl.
    destruct (Z.gtb_spec (sampling_ratio L) 0); [lia | reflexivity]. }
  assert (Egw : roi_bin_grid_w G
                = Qceiling (roi_width G / inject_Z (pooled_width L))).
  { subst G. unfold geometry; simpl.
    destruct (Z.gtb_spec (sampling_ratio L) 0); [lia | reflexivity]. }
  assert (Hh : (- inject_Z (pooled_height L) < roi_height G
                /\ roi_end_h G <= roi_start_h G)%Q -> roi_bin_grid_h G = 0).
  { intros [Hlo Hhi]. rewrite Egh. apply adaptive_grid_zero; [exact HPH | exact Hlo |].
    rewrite Erh. lra. }
  assert (Hw : (- inject_Z (pooled_width L) < roi_width G
                /\ roi_end_w G <= roi_start_w G)%Q -> roi_bin_grid_w G = 0).
  { intros [Hlo Hhi]. rewrite Egw. apply adaptive_grid_zero; [exact HPW | exact Hlo |].
    rewrite Erw. lra. }
  assert (Hzero : roi_bin_grid_h G = 0 \/ roi_bin_grid_w G = 0)
    by (destruct Hcase; [left | right]; auto).
  assert (Hprod : roi_bin_grid_h G * roi_bin_grid_w G = 0) by nia.
  assert (Hst : stencils L bottom_blob G = []).
  { unfold stencils.
    assert (E : (0 <? roi_bin_grid_h G) && (0 <? roi_bin_grid_w G) = false).
    { destruct Hzero as [-> | ->]; [reflexivity | apply andb_false_r]. }
    rewrite E, Hprod. reflexivity. }
  split; [exact Hh|]. split; [exact Hw|]. split.
  { rewrite <- Hst. apply build_run; lia. }
  destruct (forward_cells L bottom_blob r0 r1 r2 r3 rest blob_allocator buf
              HPH HPW Halloc Hbottom Hbuf)
    as (top_blob & Hrun & _ & _ & _ & Hcells); [fold G; lia|].
  exists top_blob. split; [exact Hrun|].
  intros q ph pw Hq Hph Hpw.
  destruct (Hcells q ph pw Hq Hph Hpw) as (ptr & _ & _ & Hcell).
  eexists. split; [exact Hcell|]. fold G.
  unfold cell_value, partial_sum. rewrite (per_cell_zero G) by lia.
  rewrite take_0. change (0 / count G == 0)%Q. unfold Qdiv. ring.
Qed.

Lemma shallow_degenerate_roi_pools_to_zero_witness :
  ((- inject_Z (pooled_height layer_adaptive) < roi_height (geometry layer_adaptive 1 1 1 1)
    /\ roi_end_h (geometry layer_adaptive 1 1 1 1)
       <= roi_start_h (geometry layer_adaptive 1 1 1 1))%Q ->
   roi_bin_grid_h (geometry layer_adaptive 1 1 1 1) = 0)
  /\ ((- inject_Z (pooled_width layer_adaptive) < roi_width (geometry layer_adaptive 1 1 1 1)
       /\ roi_end_w (geometry layer_adaptive 1 1 1 1)
          <= roi_start_w (geometry layer_adaptive 1 1 1 1))%Q ->
      roi_bin_grid_w (geometry layer_adaptive 1 1 1 1) = 0)
  /\ build layer_adaptive rows4x4 (geometry layer_adaptive 1 1 1 1) = Done []
  /\ exists top_blob,
       forward layer_adaptive rows4x4 [1; 1; 1; 1]%Q plain_allocator = Done (0, top_blob)
       /\ forall q ph pw,
            0 <= q < c rows4x4 ->
            0 <= ph < pooled_height layer_adaptive ->
            0 <= pw < pooled_width layer_adaptive ->
            exists val, cell top_blob q ph pw = Done val /\ (val == 0)%Q.
Proof.
  apply (shallow_degenerate_roi_pools_to_zero layer_adaptive rows4x4 1 1 1 1 []
           plain_allocator (replicate 1 (replicate 1 0%Q)));
    [reflexivity | reflexivity | reflexivity | reflexivity | reflexivity
    | vm_compute; discriminate | reflexivity
    | left; split; [reflexivity | vm_compute; discriminate]].
Defined.

(** ** Further properties of [forward] *)












(** X5: [forward] reads [roi_ptr[0..3]] without looking at the size of the
    ROI blob: once the output is allocated, a ROI blob of fewer than four
    elements is read out of range. *)
Theorem forward_short_roi_out_of_range
    (L : ROIAlign) (bottom_blob : Mat) (roi_blob : list Q)
    (blob_allocator : Z -> Z -> Z -> option (list (list Q))) (buf : list (list Q)) :
  blob_allocator (pooled_width L) (pooled_height L) (c bottom_blob) = Some buf ->
  (length roi_blob < 4)%nat ->
  forward L bottom_blob roi_blob blob_allocator = OutOfRange.
Proof.
  intros Halloc Hlen. unfold forward, create. rewrite Halloc. cbn [empty data].
  destruct roi_blob as [|a [|b [|d [|e rest]]]]; try reflexivity.
  simpl in Hlen. lia.
Qed.

Lemma forward_short_roi_out_of_range_witness :
  forward layer_2x2 rows4x4 [0; 0; 4]%Q plain_allocator = OutOfRange.
Proof.
  apply (forward_short_roi_out_of_range layer_2x2 rows4x4 [0; 0; 4]%Q plain_allocator
           (replicate 1 (replicate 4 0%Q)));
    [reflexivity | simpl; lia].
Defined.

(** ** Further properties of the stencils *)

Lemma to_int_inject (i : Z) : to_int (inject_Z i) = i.
Proof. unfold to_int, inject_Z; simpl. apply Z.quot_1_r. Qed.

Lemma clamp0_inject (i : Z) : 0 <= i -> clamp0 (inject_Z i) = inject_Z i.
Proof.
  intros Hi. unfold clamp0. destruct (Qle_bool (inject_Z i) 0) eqn:E; [|reflexivity].
  apply Qle_bool_iff in E. change 0%Q with (inject_Z 0) in E.
  rewrite <- Zle_Qle in E. by replace i with 0 by lia.
Qed.

Lemma neighbours_inject size (i : Z) :
  0 <= i < size ->
  low (neighbours size (inject_Z i)) = i
  /\ coord (neighbours size (inject_Z i)) = inject_Z i.
Proof.
  intros Hi. unfold neighbours. rewrite to_int_inject.
  destruct (Z.geb_spec i (size - 1)); simpl; [|by split].
  by replace (size - 1) with i by lia.
Qed.

Lemma outside_inject height width (i j : Z) :
  0 <= i < height -> 0 <= j < width ->
  outside height width (inject_Z i) (inject_Z j) = false.
Proof.
  intros Hi Hj. apply outside_false.
  change (-1)%Q with (inject_Z (-1)). rewrite <- !Zle_Qle. lia.
Qed.

(** X6: at a grid point [(i, j)] of the feature map the stencil puts weight
    1 on pixel [(i, j)] and weight 0 on the three other positions, so the
    bilinear sample is the pixel itself. *)
Theorem stencil_at_grid_point (v : list Q) (height width i j : Z) :
  0 <= i < height -> 0 <= j < width ->
  pos1 (stencil height width (inject_Z i) (inject_Z j)) = i * width + j
  /\ (w1 (stencil height width (inject_Z i) (inject_Z j)) == 1)%Q
  /\ (w2 (stencil height width (inject_Z i) (inject_Z j)) == 0)%Q
  /\ (w3 (stencil height width (inject_Z i) (inject_Z j)) == 0)%Q
  /\ (w4 (stencil height width (inject_Z i) (inject_Z j)) == 0)%Q
  /\ (bilinear v height width (inject_Z i) (inject_Z j) == peek v (i * width + j))%Q.
Proof.
  intros Hi Hj. unfold bilinear, term.
  rewrite (stencil_inside _ _ _ _ (outside_inject height width i j Hi Hj)).
  rewrite !clamp0_inject by lia.
  destruct (neighbours_inject height i Hi) as [Ely Ecy].
  destruct (neighbours_inject width j Hj) as [Elx Ecx].
  unfold weights; simpl. rewrite Ely, Ecy, Elx, Ecx.
  repeat split; try reflexivity; ring.
Qed.

Lemma stencil_at_grid_point_witness :
  pos1 (stencil 4 4 (inject_Z 3) (inject_Z 1)) = 3 * 4 + 1
  /\ (w1 (stencil 4 4 (inject_Z 3) (inject_Z 1)) == 1)%Q
  /\ (w2 (stencil 4 4 (inject_Z 3) (inject_Z 1)) == 0)%Q
  /\ (w3 (stencil 4 4 (inject_Z 3) (inject_Z 1)) == 0)%Q
  /\ (w4 (stencil 4 4 (inject_Z 3) (inject_Z 1)) == 0)%Q
  /\ (bilinear [0;0;0;0;1;1;1;1;2;2;2;2;3;3;3;3]%Q 4 4 (inject_Z 3) (inject_Z 1)
      == peek [0;0;0;0;1;1;1;1;2;2;2;2;3;3;3;3]%Q (3 * 4 + 1))%Q.
Proof.
  apply (stencil_at_grid_point [0;0;0;0;1;1;1;1;2;2;2;2;3;3;3;3]%Q 4 4 3 1); lia.
Defined.

Lemma clamp0_nonpos y : (y <= 0)%Q -> clamp0 y = 0%Q.
Proof. intros Hy. unfold clamp0. apply Qle_bool_iff in Hy. by rewrite Hy. Qed.

Lemma neighbours_snap size y :
  1 <= size -> (inject_Z (size - 1) <= y)%Q ->
  neighbours size y = mkAxis (size - 1) (size - 1) (inject_Z (size - 1)).
Proof.
  intros Hs Hy. unfold neighbours.
  assert (H0 : (0 <= y)%Q).
  { eapply Qle_trans; [|exact Hy]. change 0%Q with (inject_Z 0).
    rewrite <- Zle_Qle. lia. }
  assert (size - 1 <= to_int y).
  { rewrite to_int_floor by exact H0.
    rewrite <- (Qfloor_Z (size - 1)). by apply Qfloor_resp_le. }
  destruct (Z.geb_spec (to_int y) (size - 1)); [reflexivity | lia].
Qed.

Lemma neighbours_clamp0_snap size y :
  1 <= size -> (inject_Z (size - 1) <= y)%Q ->
  neighbours size (clamp0 y) = mkAxis (size - 1) (size - 1) (inject_Z (size - 1)).
Proof.
  intros Hs Hy. apply neighbours_snap; [exact Hs|].
  unfold clamp0. destruct (Qle_bool y 0) eqn:E; [|exact Hy].
  apply Qle_bool_iff in E. eapply Qle_trans; [exact Hy | exact E].
Qed.

(** X7: overshoot of up to one pixel is treated as the edge: along either
    axis a coordinate in [[-1, 0]] gives the stencil of coordinate [0], and
    a coordinate in [[size-1, size]] gives the stencil of [size-1]. *)
Theorem stencil_edge_clamp (height width : Z) (y x : Q) :
  1 <= height -> 1 <= width ->
  ((-1 <= y)%Q -> (y <= 0)%Q -> stencil height width y x = stencil height width 0 x)
  /\ ((inject_Z (height - 1) <= y)%Q -> (y <= inject_Z height)%Q ->
      stencil height width y x = stencil height width (inject_Z (height - 1)) x)
  /\ ((-1 <= x)%Q -> (x <= 0)%Q -> stencil height width y x = stencil height width y 0)
  /\ ((inject_Z (width - 1) <= x)%Q -> (x <= inject_Z width)%Q ->
      stencil height width y x = stencil height width y (inject_Z (width - 1))).
Proof.
  intros Hh Hw.
  assert (Hh0 : (0 <= inject_Z height)%Q)
    by (change 0%Q with (inject_Z 0); rewrite <- Zle_Qle; lia).
  assert (Hw0 : (0 <= inject_Z width)%Q)
    by (change 0%Q with (inject_Z 0); rewrite <- Zle_Qle; lia).
  assert (Hh1 : (0 <= inject_Z (height - 1) <= inject_Z height)%Q)
    by (change 0%Q with (inject_Z 0); rewrite <- !Zle_Qle; lia).
  assert (Hw1 : (0 <= inject_Z (width - 1) <= inject_Z width)%Q)
    by (change 0%Q with (inject_Z 0); rewrite <- !Zle_Qle; lia).
  assert (Hout : forall a b a' b',
            Qltb a (-1) = Qltb a' (-1) ->
            Qltb (inject_Z height) a = Qltb (inject_Z height) a' ->
            Qltb b (-1) = Qltb b' (-1) ->
            Qltb (inject_Z width) b = Qltb (inject_Z width) b' ->
            outside height width a b = outside height width a' b').
  { intros a b a' b' E1 E2 E3 E4. unfold outside. by rewrite E1, E2, E3, E4. }
  split; [|split; [|split]].
  - intros Hlo Hhi. unfold stencil.
    rewrite (Hout y x 0%Q x); try reflexivity.
    + by rewrite (clamp0_nonpos y Hhi).
    + rewrite !(proj2 (Qltb_ge _ _)); [reflexivity | lra | exact Hlo].
    + rewrite !(proj2 (Qltb_ge _ _)); [reflexivity | lra | lra].
  - intros Hlo Hhi. unfold stencil.
    rewrite (Hout y x (inject_Z (height - 1)) x); try reflexivity.
    + rewrite (neighbours_clamp0_snap height y Hh Hlo).
      rewrite (neighbours_clamp0_snap height (inject_Z (height - 1)) Hh (Qle_refl _)).
      reflexivity.
    + rewrite !(proj2 (Qltb_ge _ _)); [reflexivity | lra | lra].
    + rewrite !(proj2 (Qltb_ge _ _)); [reflexivity | lra | exact Hhi].
  - intros Hlo Hhi. unfold stencil.
    rewrite (Hout y x y 0%Q); try reflexivity.
    + by rewrite (clamp0_nonpos x Hhi).
    + rewrite !(proj2 (Qltb_ge _ _)); [reflexivity | lra | exact Hlo].
    + rewrite !(proj2 (Qltb_ge _ _)); [reflexivity | lra | lra].
  - intros Hlo Hhi. unfold stencil.
    rewrite (Hout y x y (inject_Z (width - 1))); try reflexivity.
    + rewrite (neighbours_clamp0_snap width x Hw Hlo).
      rewrite (neighbours_clamp0_snap width (inject_Z (width - 1)) Hw (Qle_refl _)).
      reflexivity.
    + rewrite !(proj2 (Qltb_ge _ _)); [reflexivity | lra | lra].
    + rewrite !(proj2 (Qltb_ge _ _)); [reflexivity | lra | exact Hhi].
Qed.

Lemma stencil_edge_clamp_witness :
  ((-1 <= -1 # 2)%Q -> (-1 # 2 <= 0)%Q ->
   stencil 4 4 (-1 # 2) (7 # 2) = stencil 4 4 0 (7 # 2))
  /\ ((inject_Z (4 - 1) <= -1 # 2)%Q -> (-1 # 2 <= inject_Z 4)%Q ->
      stencil 4 4 (-1 # 2) (7 # 2) = stencil 4 4 (inject_Z (4 - 1)) (7 # 2))
  /\ ((-1 <= 7 # 2)%Q -> (7 # 2 <= 0)%Q ->
      stencil 4 4 (-1 # 2) (7 # 2) = stencil 4 4 (-1 # 2) 0)
  /\ ((inject_Z (4 - 1) <= 7 # 2)%Q -> (7 # 2 <= inject_Z 4)%Q ->
      stencil 4 4 (-1 # 2) (7 # 2) = stencil 4 4 (-1 # 2) (inject_Z (4 - 1))).
Proof. apply (stencil_edge_clamp 4 4 (-1 # 2) (7 # 2)); lia. Defined.

(** *** Range of the output *)








(** *** ROIs that miss the feature map *)







(** ** The builder and the size of [pre_calc] *)

(** A loop stops at the first iteration that runs out of range. *)
Lemma for_int_stops {S} (I : Z -> S -> Prop) n (body : Z -> S -> outcome S) s0 i0 :
  0 <= i0 < n ->
  I 0 s0 ->
  (forall i s, 0 <= i < i0 -> I i s -> exists s', body i s = Done s' /\ I (i + 1) s') ->
  (forall s, I i0 s -> body i0 s = OutOfRange) ->
  for_int n body s0 = OutOfRange.
Proof.
  intros Hi H0 Hstep Hfail.
  destruct (for_int_inv I i0 body s0) as (s1 & Hrun & HI); [lia | exact H0 | exact Hstep |].
  unfold for_int in *. replace n with (i0 + (n - i0)) by lia.
  rewrite seqZ_app, iterate_app, Hrun by lia. cbn [bind].
  rewrite seqZ_cons by lia. cbn [iterate]. rewrite Z.add_0_l, (Hfail s1 HI). reflexivity.
Qed.

Section BuilderBounds.
Variables (height width PH PW GH GW : Z).
Variables (rsh rsw bsh bsw : Q).
Variable v0 : list PreCalc.

Let pa : Z -> PreCalc := plan_at height width PW GH GW rsh rsw bsh bsw.
Let sl : Z -> Z -> Z -> Z -> Z := slot PW GH GW.

(** State of the builder after [k] stencils: the first [k] elements hold
    the plan, the others are those of the vector it was given. *)
Definition framed (k : Z) (st : list PreCalc * Z) : Prop :=
  snd st = k /\ length (fst st) = length v0
  /\ (forall j, 0 <= j < k -> fst st !! Z.to_nat j = Some (pa j))
  /\ (forall j : nat, k <= Z.of_nat j -> fst st !! j = v0 !! j).

Definition loop_ix (ph pw iy : Z) : list PreCalc * Z -> outcome (list PreCalc * Z) :=
  for_int GW (fun ix =>
    emit (stencil height width (sample_coord rsh ph bsh iy GH)
            (sample_coord rsw pw bsw ix GW))).

Definition loop_iy (ph pw : Z) : list PreCalc * Z -> outcome (list PreCalc * Z) :=
  for_int GH (fun iy => loop_ix ph pw iy).

Definition loop_pw (ph : Z) : list PreCalc * Z -> outcome (list PreCalc * Z) :=
  for_int PW (fun pw => loop_iy ph pw).

Lemma loops_nest (v : list PreCalc) :
  pre_calc_loops height width PH PW GH GW rsh rsw bsh bsw GH GW v
  = for_int PH (fun ph => loop_pw ph) (v, 0).
Proof. reflexivity. Qed.

Lemma emit_framed k pc st :
  framed k st -> 0 <= k < Z.of_nat (length v0) -> pc = pa k ->
  exists st', emit pc st = Done st' /\ framed (k + 1) st'.
Proof.
  intros (Hk & Hlen & Hpre & Htail) Hr ->. destruct st as [v i]; simpl in *. subst i.
  rewrite assign_Done by lia. simpl. eexists; split; [reflexivity|].
  split; [reflexivity|]. split; simpl; [by rewrite length_insert|]. split.
  - intros j Hj. destruct (decide (j = k)) as [->|Hne].
    + apply list_lookup_insert_eq. lia.
    + rewrite list_lookup_insert_ne by lia. apply Hpre. lia.
  - intros j Hj. rewrite list_lookup_insert_ne by lia. apply Htail. lia.
Qed.

Lemma emit_overrun k pc st :
  framed k st -> k = Z.of_nat (length v0) -> emit pc st = OutOfRange.
Proof.
  intros (Hk & Hlen & _) Hr. destruct st as [v i]; simpl in *. subst i.
  unfold assign. rewrite Hlen, Hr.
  destruct (Z.ltb_spec (Z.of_nat (length v0)) (Z.of_nat (length v0))); [lia|].
  by rewrite andb_false_r.
Qed.

Lemma sl_nonneg ph pw iy ix :
  0 <= PW -> 0 <= GH -> 0 <= GW -> 0 <= ph -> 0 <= pw -> 0 <= iy -> 0 <= ix ->
  0 <= sl ph pw iy ix.
Proof.
  intros. unfold sl, slot.
  assert (0 <= ph * PW + pw) by nia.
  assert (0 <= (ph * PW + pw) * GH + iy) by nia.
  nia.
Qed.

Lemma run_ix ph pw iy st :
  0 <= ph -> 0 <= pw < PW -> 0 <= iy < GH -> 0 <= GW ->
  framed (sl ph pw iy 0) st -> sl ph pw iy GW <= Z.of_nat (length v0) ->
  exists st', loop_ix ph pw iy st = Done st' /\ framed (sl ph pw iy GW) st'.
Proof.
  intros Hph Hpw Hiy HGW Hst Hle. unfold loop_ix.
  apply (for_int_inv (fun ix => framed (sl ph pw iy ix))); [exact HGW | exact Hst |].
  clear st Hst. intros ix st Hix Hst.
  replace (sl ph pw iy (ix + 1)) with (sl ph pw iy ix + 1) by (unfold sl, slot; ring).
  apply emit_framed; [exact Hst | |].
  - pose proof (sl_nonneg ph pw iy ix). unfold sl, slot in *. nia.
  - symmetry. unfold pa, sl. apply plan_at_slot; lia.
Qed.

Lemma run_iy ph pw st :
  0 <= ph -> 0 <= pw < PW -> 0 <= GH -> 0 <= GW ->
  framed (sl ph pw 0 0) st -> sl ph pw GH 0 <= Z.of_nat (length v0) ->
  exists st', loop_iy ph pw st = Done st' /\ framed (sl ph pw GH 0) st'.
Proof.
  intros Hph Hpw HGH HGW Hst Hle. unfold loop_iy.
  apply (for_int_inv (fun iy => framed (sl ph pw iy 0))); [exact HGH | exact Hst |].
  clear st Hst. intros iy st Hiy Hst.
  replace (sl ph pw (iy + 1) 0) with (sl ph pw iy GW) by (unfold sl, slot; ring).
  apply run_ix; try assumption. unfold sl, slot in *. nia.
Qed.

Lemma run_pw ph st :
  0 <= ph -> 0 <= PW -> 0 <= GH -> 0 <= GW ->
  framed (sl ph 0 0 0) st -> sl ph PW 0 0 <= Z.of_nat (length v0) ->
  exists st', loop_pw ph st = Done st' /\ framed (sl ph PW 0 0) st'.
Proof.
  intros Hph HPW HGH HGW Hst Hle. unfold loop_pw.
  apply (for_int_inv (fun pw => framed (sl ph pw 0 0))); [exact HPW | exact Hst |].
  clear st Hst. intros pw st Hpw Hst.
  replace (sl ph (pw + 1) 0 0) with (sl ph pw GH 0) by (unfold sl, slot; ring).
  apply run_iy; try assumption.
  unfold sl, slot in *.
  assert ((pw + 1) * (GH * GW) <= PW * (GH * GW)) by (apply Z.mul_le_mono_nonneg_r; nia).
  nia.
Qed.

Lemma run_ph (v : list PreCalc) :
  0 <= PH -> 0 <= PW -> 0 <= GH -> 0 <= GW ->
  v = v0 -> PH * PW * GH * GW <= Z.of_nat (length v0) ->
  exists st', for_int PH (fun ph => loop_pw ph) (v, 0) = Done st'
              /\ framed (PH * PW * GH * GW) st'.
Proof.
  intros HPH HPW HGH HGW -> Hle.
  replace (PH * PW * GH * GW) with (sl PH 0 0 0) by (unfold sl, slot; ring).
  apply (for_int_inv (fun ph => framed (sl ph 0 0 0))); [exact HPH | |].
  - split; [reflexivity|]. split; [reflexivity|]. split; [|reflexivity].
    intros j Hj. unfold sl, slot in Hj. lia.
  - intros ph st Hph Hst.
    replace (sl (ph + 1) 0 0 0) with (sl ph PW 0 0) by (unfold sl, slot; ring).
    apply run_pw; try assumption; [lia|].
    unfold sl, slot in *.
    assert ((ph + 1) * (PW * GH * GW) <= PH * (PW * GH * GW))
      by (apply Z.mul_le_mono_nonneg_r; nia).
    nia.
Qed.

Lemma fail_ix ph pw iy ix0 st :
  0 <= ph -> 0 <= pw < PW -> 0 <= iy < GH -> 0 <= ix0 < GW ->
  framed (sl ph pw iy 0) st -> Z.of_nat (length v0) = sl ph pw iy ix0 ->
  loop_ix ph pw iy st = OutOfRange.
Proof.
  intros Hph Hpw Hiy Hix0 Hst Hlen. unfold loop_ix.
  apply (for_int_stops (fun ix => framed (sl ph pw iy ix)) _ _ _ ix0);
    [exact Hix0 | exact Hst | |].
  - intros ix s Hix Hs.
    replace (sl ph pw iy (ix + 1)) with (sl ph pw iy ix + 1) by (unfold sl, slot; ring).
    apply emit_framed; [exact Hs | |].
    + pose proof (sl_nonneg ph pw iy ix). unfold sl, slot in *. nia.
    + symmetry. unfold pa, sl. apply plan_at_slot; lia.
  - intros s Hs. by apply (emit_overrun (sl ph pw iy ix0)).
Qed.

Lemma fail_iy ph pw iy0 ix0 st :
  0 <= ph -> 0 <= pw < PW -> 0 <= iy0 < GH -> 0 <= ix0 < GW ->
  framed (sl ph pw 0 0) st -> Z.of_nat (length v0) = sl ph pw iy0 ix0 ->
  loop_iy ph pw st = OutOfRange.
Proof.
  intros Hph Hpw Hiy0 Hix0 Hst Hlen. unfold loop_iy.
  apply (for_int_stops (fun iy => framed (sl ph pw iy 0)) _ _ _ iy0);
    [exact Hiy0 | exact Hst | |].
  - intros iy s Hiy Hs.
    replace (sl ph pw (iy + 1) 0) with (sl ph pw iy GW) by (unfold sl, slot; ring).
    apply run_ix; try assumption; [lia | lia |].
    rewrite Hlen. unfold sl, slot. nia.
  - intros s Hs. by apply (fail_ix ph pw iy0 ix0).
Qed.

Lemma fail_pw ph pw0 iy0 ix0 st :
  0 <= ph -> 0 <= pw0 < PW -> 0 <= iy0 < GH -> 0 <= ix0 < GW ->
  framed (sl ph 0 0 0) st -> Z.of_nat (length v0) = sl ph pw0 iy0 ix0 ->
  loop_pw ph st = OutOfRange.
Proof.
  intros Hph Hpw0 Hiy0 Hix0 Hst Hlen. unfold loop_pw.
  apply (for_int_stops (fun pw => framed (sl ph pw 0 0)) _ _ _ pw0);
    [exact Hpw0 | exact Hst | |].
  - intros pw s Hpw Hs.
    replace (sl ph (pw + 1) 0 0) with (sl ph pw GH 0) by (unfold sl, slot; ring).
    apply run_iy; try assumption; [lia | lia | lia |].
    rewrite Hlen. unfold sl, slot.
    assert ((pw + 1) * (GH * GW) <= pw0 * (GH * GW))
      by (apply Z.mul_le_mono_nonneg_r; nia).
    nia.
  - intros s Hs. by apply (fail_iy ph pw0 iy0 ix0).
Qed.

Lemma fail_ph (v : list PreCalc) ph0 pw0 iy0 ix0 :
  0 <= ph0 < PH -> 0 <= pw0 < PW -> 0 <= iy0 < GH -> 0 <= ix0 < GW ->
  v = v0 -> Z.of_nat (length v0) = sl ph0 pw0 iy0 ix0 ->
  for_int PH (fun ph => loop_pw ph) (v, 0) = OutOfRange.
Proof.
  intros Hph0 Hpw0 Hiy0 Hix0 -> Hlen.
  apply (for_int_stops (fun ph => framed (sl ph 0 0 0)) _ _ _ ph0); [exact Hph0 | | |].
  - split; [reflexivity|]. split; [reflexivity|]. split; [|reflexivity].
    intros j Hj. unfold sl, slot in Hj. lia.
  - intros ph s Hph Hs.
    replace (sl (ph + 1) 0 0 0) with (sl ph PW 0 0) by (unfold sl, slot; ring).
    apply run_pw; try assumption; [lia | lia | lia | lia |].
    rewrite Hlen. unfold sl, slot.
    assert (0 <= PW * GH) by nia.
    assert (0 <= PW * GH * GW) by nia.
    assert ((ph + 1) * (PW * GH * GW) <= ph0 * (PW * GH * GW))
      by (apply Z.mul_le_mono_nonneg_r; lia).
    assert (0 <= pw0 * GH + iy0) by nia.
    assert (0 <= (pw0 * GH + iy0) * GW + ix0) by nia.
    nia.
  - intros s Hs. apply (fail_pw ph0 pw0 iy0 ix0); (assumption || lia).
Qed.

End BuilderBounds.

(** X10: given a vector at least as long as the number of samples, the
    builder overwrites exactly its first
    [pooled_height * pooled_width * roi_bin_grid_h * roi_bin_grid_w] elements
    with the plan and leaves every later element as it was. *)
Theorem builder_writes_only_the_plan
    height width pooled_height pooled_width roi_bin_grid_h roi_bin_grid_w
    roi_start_h roi_start_w bin_size_h bin_size_w (pre_calc : list PreCalc) :
  0 <= pooled_height -> 0 <= pooled_width ->
  0 <= roi_bin_grid_h -> 0 <= roi_bin_grid_w ->
  pooled_height * pooled_width * roi_bin_grid_h * roi_bin_grid_w
  <= Z.of_nat (length pre_calc) ->
  pre_calc_for_bilinear_interpolate height width pooled_height pooled_width
    roi_bin_grid_h roi_bin_grid_w roi_start_h roi_start_w bin_size_h bin_size_w
    roi_bin_grid_h roi_bin_grid_w pre_calc
  = Done (plan height width pooled_height pooled_width roi_bin_grid_h roi_bin_grid_w
            roi_start_h roi_start_w bin_size_h bin_size_w
          ++ drop (Z.to_nat (pooled_height * pooled_width
                             * roi_bin_grid_h * roi_bin_grid_w)) pre_calc).
Proof.
  intros HPH HPW HGH HGW Hlen.
  set (N := pooled_height * pooled_width * roi_bin_grid_h * roi_bin_grid_w) in *.
  assert (HN : 0 <= N) by (unfold N; assert (0 <= pooled_height * pooled_width) by nia;
                           assert (0 <= pooled_height * pooled_width * roi_bin_grid_h)
                             by nia; nia).
  unfold pre_calc_for_bilinear_interpolate. rewrite loops_nest.
  destruct (run_ph height width pooled_height pooled_width roi_bin_grid_h roi_bin_grid_w
              roi_start_h roi_start_w bin_size_h bin_size_w pre_calc pre_calc
              HPH HPW HGH HGW eq_refl Hlen)
    as ([v k] & Hrun & Hk & Hl & Hpre & Htail).
  rewrite Hrun. simpl in *. f_equal.
  apply list_eq. intros i.
  destruct (decide (Z.of_nat i < N)) as [Hi|Hi].
  - rewrite lookup_app_l by (rewrite plan_length; fold N; lia).
    rewrite <- (Nat2Z.id i). rewrite Hpre by lia.
    symmetry. apply plan_lookup. fold N. lia.
  - rewrite lookup_app_r by (rewrite plan_length; fold N; lia).
    rewrite plan_length, lookup_drop. fold N.
    rewrite Htail by lia. f_equal. lia.
Qed.

Lemma builder_writes_only_the_plan_witness :
  pre_calc_for_bilinear_interpolate 4 4 1 1 2 2 0 0 4 4 2 2
    (replicate 6 (mkPreCalc 9 9 9 9 1 1 1 1))
  = Done (plan 4 4 1 1 2 2 0 0 4 4
          ++ drop (Z.to_nat (1 * 1 * 2 * 2)) (replicate 6 (mkPreCalc 9 9 9 9 1 1 1 1))).
Proof.
  apply (builder_writes_only_the_plan 4 4 1 1 2 2 0 0 4 4
           (replicate 6 (mkPreCalc 9 9 9 9 1 1 1 1)));
    [lia | lia | lia | lia | simpl; lia].
Defined.

(** X11: the builder does not check the size of [pre_calc]: with all four
    loop bounds positive and a vector shorter than the number of samples,
    it writes out of range. *)
Theorem builder_overruns_short_vector
    height width pooled_height pooled_width roi_bin_grid_h roi_bin_grid_w
    roi_start_h roi_start_w bin_size_h bin_size_w (pre_calc : list PreCalc) :
  0 < pooled_height -> 0 < pooled_width ->
  0 < roi_bin_grid_h -> 0 < roi_bin_grid_w ->
  Z.of_nat (length pre_calc)
  < pooled_height * pooled_width * roi_bin_grid_h * roi_bin_grid_w ->
  pre_calc_for_bilinear_interpolate height width pooled_height pooled_width
    roi_bin_grid_h roi_bin_grid_w roi_start_h roi_start_w bin_size_h bin_size_w
    roi_bin_grid_h roi_bin_grid_w pre_calc
  = OutOfRange.
Proof.
  intros HPH HPW HGH HGW Hlen.
  destruct (slot_decode pooled_height pooled_width roi_bin_grid_h roi_bin_grid_w
              (Z.of_nat (length pre_calc)) ltac:(lia) HPW HGH HGW)
    as [(Hph & Hpw & Hiy & Hix) Hslot].
  unfold pre_calc_for_bilinear_interpolate. rewrite loops_nest.
  erewrite fail_ph; [reflexivity | exact Hph | exact Hpw | exact Hiy | exact Hix
                    | reflexivity | symmetry; exact Hslot].
Qed.

Lemma builder_overruns_short_vector_witness :
  pre_calc_for_bilinear_interpolate 4 4 1 1 2 2 0 0 4 4 2 2 (replicate 3 PreCalc_empty)
  = OutOfRange.
Proof.
  apply (builder_overruns_short_vector 4 4 1 1 2 2 0 0 4 4 (replicate 3 PreCalc_empty));
    [lia | lia | lia | lia | simpl; lia].
Defined.

(** X12: if any of the four loop bounds is zero or negative the builder
    writes nothing and returns the vector it was given. *)
Theorem builder_empty_range
    height width pooled_height pooled_width iy_upper ix_upper
    roi_start_h roi_start_w bin_size_h bin_size_w roi_bin_grid_h roi_bin_grid_w
    (pre_calc : list PreCalc) :
  pooled_height <= 0 \/ pooled_width <= 0 \/ iy_upper <= 0 \/ ix_upper <= 0 ->
  pre_calc_for_bilinear_interpolate height width pooled_height pooled_width
    iy_upper ix_upper roi_start_h roi_start_w bin_size_h bin_size_w
    roi_bin_grid_h roi_bin_grid_w pre_calc
  = Done pre_calc.
Proof.
  intros Hz. unfold pre_calc_for_bilinear_interpolate, pre_calc_loops.
  rewrite for_int_skip; [reflexivity|].
  intros ph st Hph. apply for_int_skip. intros pw st' Hpw.
  apply for_int_skip. intros iy st'' Hiy. apply for_int_le0. lia.
Qed.

Lemma builder_empty_range_witness :
  pre_calc_for_bilinear_interpolate 4 4 2 2 (-2) 3 0 0 1 1 (-2) 3
    (replicate 5 PreCalc_empty)
  = Done (replicate 5 PreCalc_empty).
Proof.
  apply (builder_empty_range 4 4 2 2 (-2) 3 0 0 1 1 (-2) 3 (replicate 5 PreCalc_empty)).
  right; right; left; lia.
Defined.

(** ** ROI coordinates and [spatial_scale] *)

Lemma cell_value_no_samples G pre_calc (ptr : list Q) j :
  roi_bin_grid_h G <= 0 \/ roi_bin_grid_w G <= 0 ->
  cell_value G pre_calc ptr j = (0 / count G)%Q.
Proof.
  intros Hz. unfold cell_value, partial_sum. rewrite (per_cell_zero G Hz).
  by rewrite take_0.
Qed.

Lemma Qmax_comp a a' b : (a == a')%Q -> (Qmax a b == Qmax a' b)%Q.
Proof.
  intros E. unfold Qmax, Qltb. rewrite E. destruct (Qle_bool b a'); [exact E | reflexivity].
Qed.

(** Two configurations whose derived quantities agree give the same output. *)
Lemma forward_agree
    (L L' : ROIAlign) (bottom_blob : Mat) (r0 r1 r2 r3 r0' r1' r2' r3' : Q)
    (rest rest' : list Q)
    (blob_allocator : Z -> Z -> Z -> option (list (list Q))) (buf : list (list Q)) :
  pooled_width L' = pooled_width L -> pooled_height L' = pooled_height L ->
  0 < pooled_height L -> 0 < pooled_width L ->
  blob_allocator (pooled_width L) (pooled_height L) (c bottom_blob) = Some buf ->
  blob_ok bottom_blob = true ->
  shape_ok buf (c bottom_blob) (pooled_width L * pooled_height L) = true ->
  (roi_start_h (geometry L' r0' r1' r2' r3') == roi_start_h (geometry L r0 r1 r2 r3))%Q ->
  (roi_start_w (geometry L' r0' r1' r2' r3') == roi_start_w (geometry L r0 r1 r2 r3))%Q ->
  (bin_size_h (geometry L' r0' r1' r2' r3') == bin_size_h (geometry L r0 r1 r2 r3))%Q ->
  (bin_size_w (geometry L' r0' r1' r2' r3') == bin_size_w (geometry L r0 r1 r2 r3))%Q ->
  roi_bin_grid_h (geometry L' r0' r1' r2' r3') = roi_bin_grid_h (geometry L r0 r1 r2 r3) ->
  roi_bin_grid_w (geometry L' r0' r1' r2' r3') = roi_bin_grid_w (geometry L r0 r1 r2 r3) ->
  (forward L bottom_blob (r0 :: r1 :: r2 :: r3 :: rest) blob_allocator = LengthError
   /\ forward L' bottom_blob (r0' :: r1' :: r2' :: r3' :: rest') blob_allocator
      = LengthError)
  \/ exists top_blob top_blob',
       forward L bottom_blob (r0 :: r1 :: r2 :: r3 :: rest) blob_allocator
       = Done (0, top_blob)
       /\ forward L' bottom_blob (r0' :: r1' :: r2' :: r3' :: rest') blob_allocator
          = Done (0, top_blob')
       /\ forall q ph pw,
            0 <= q < c bottom_blob ->
            0 <= ph < pooled_height L -> 0 <= pw < pooled_width L ->
            exists val val',
              cell top_blob q ph pw = Done val
              /\ cell top_blob' q ph pw = Done val'
              /\ (val == val')%Q.
Proof.
  intros EPW EPH HPH HPW Halloc Hbottom Hbuf Esh Esw Ebh Ebw Egh Egw.
  assert (HPH' : 0 < pooled_height L') by lia.
  assert (HPW' : 0 < pooled_width L') by lia.
  assert (Halloc' : blob_allocator (pooled_width L') (pooled_height L') (c bottom_blob)
                    = Some buf) by (by rewrite EPW, EPH).
  assert (Hbuf' : shape_ok buf (c bottom_blob) (pooled_width L' * pooled_height L') = true)
    by (by rewrite EPW, EPH).
  destruct (Z.lt_ge_cases (roi_bin_grid_h (geometry L r0 r1 r2 r3)
                           * roi_bin_grid_w (geometry L r0 r1 r2 r3)) 0) as [Hneg|Hpos].
  { left. split.
    - by apply (forward_length_error L bottom_blob r0 r1 r2 r3 rest blob_allocator buf).
    - apply (forward_length_error L' bottom_blob r0' r1' r2' r3' rest' blob_allocator buf);
        try assumption. by rewrite Egh, Egw. }
  right.
  destruct (forward_cells L bottom_blob r0 r1 r2 r3 rest blob_allocator buf
              HPH HPW Halloc Hbottom Hbuf Hpos)
    as (top_blob & Hrun & _ & _ & _ & Hcells).
  destruct (forward_cells L' bottom_blob r0' r1' r2' r3' rest' blob_allocator buf
              HPH' HPW' Halloc' Hbottom Hbuf')
    as (top_blob' & Hrun' & _ & _ & _ & Hcells'); [by rewrite Egh, Egw|].
  exists top_blob, top_blob'. split; [exact Hrun|]. split; [exact Hrun'|].
  intros q ph pw Hq Hph Hpw.
  destruct (Hcells q ph pw Hq Hph Hpw) as (ptr & Hptr & _ & Hcell).
  destruct (Hcells' q ph pw Hq ltac:(lia) ltac:(lia)) as (ptr' & Hptr' & _ & Hcell').
  rewrite Hptr in Hptr'. injection Hptr' as <-.
  eexists. eexists. split; [exact Hcell|]. split; [exact Hcell'|].
  destruct (Z.le_gt_cases (roi_bin_grid_h (geometry L r0 r1 r2 r3)) 0) as [HGH|HGH];
    [|destruct (Z.le_gt_cases (roi_bin_grid_w (geometry L r0 r1 r2 r3)) 0) as [HGW|HGW]].
  - rewrite !cell_value_no_samples by (rewrite ?Egh; left; exact HGH).
    change (count (geometry L' r0' r1' r2' r3'))
      with (inject_Z (Z.max (roi_bin_grid_h (geometry L' r0' r1' r2' r3')
                             * roi_bin_grid_w (geometry L' r0' r1' r2' r3')) 1)).
    rewrite Egh, Egw. reflexivity.
  - rewrite !cell_value_no_samples by (rewrite ?Egw; right; exact HGW).
    change (count (geometry L' r0' r1' r2' r3'))
      with (inject_Z (Z.max (roi_bin_grid_h (geometry L' r0' r1' r2' r3')
                             * roi_bin_grid_w (geometry L' r0' r1' r2' r3')) 1)).
    rewrite Egh, Egw. reflexivity.
  - rewrite (cell_value_mean L) by (assumption || lia).
    rewrite (cell_value_mean L') by (rewrite ?Egh, ?Egw; assumption || lia).
    rewrite Egh, Egw. symmetry. by apply cell_mean_comp.
Qed.

Lemma rescaled_geometry L (k x1 y1 x2 y2 : Q) :
  ~ (k == 0)%Q ->
  let G := geometry L x1 y1 x2 y2 in
  let G' := geometry (rescaled L k) (x1 / k) (y1 / k) (x2 / k) (y2 / k) in
  (roi_start_h G' == roi_start_h G)%Q /\ (roi_start_w G' == roi_start_w G)%Q
  /\ (bin_size_h G' == bin_size_h G)%Q /\ (bin_size_w G' == bin_size_w G)%Q
  /\ roi_bin_grid_h G' = roi_bin_grid_h G /\ roi_bin_grid_w G' = roi_bin_grid_w G.
Proof.
  intros Hk G G'.
  assert (Esh : (roi_start_h G' == roi_start_h G)%Q).
  { subst G G'. unfold geometry, offset_of, rescaled; simpl. field. exact Hk. }
  assert (Esw : (roi_start_w G' == roi_start_w G)%Q).
  { subst G G'. unfold geometry, offset_of, rescaled; simpl. field. exact Hk. }
  assert (Erw : (roi_width G' == roi_width G)%Q).
  { subst G G'. unfold geometry, offset_of, rescaled; simpl.
    destruct (aligned L); simpl; [|apply Qmax_comp]; field; exact Hk. }
  assert (Erh : (roi_height G' == roi_height G)%Q).
  { subst G G'. unfold geometry, offset_of, rescaled; simpl.
    destruct (aligned L); simpl; [|apply Qmax_comp]; field; exact Hk. }
  split; [exact Esh|]. split; [exact Esw|].
  assert (Ebh : (bin_size_h G' == bin_size_h G)%Q).
  { change (roi_height G' / inject_Z (pooled_height L)
            == roi_height G / inject_Z (pooled_height L))%Q. by rewrite Erh. }
  assert (Ebw : (bin_size_w G' == bin_size_w G)%Q).
  { change (roi_width G' / inject_Z (pooled_width L)
            == roi_width G / inject_Z (pooled_width L))%Q. by rewrite Erw. }
  split; [exact Ebh|]. split; [exact Ebw|]. split.
  - change ((if sampling_ratio L >? 0 then sampling_ratio L
             else Qceiling (roi_height G' / inject_Z (pooled_height L)))
            = (if sampling_ratio L >? 0 then sampling_ratio L
               else Qceiling (roi_height G / inject_Z (pooled_height L)))).
    by rewrite Erh.
  - change ((if sampling_ratio L >? 0 then sampling_ratio L
             else Qceiling (roi_width G' / inject_Z (pooled_width L)))
            = (if sampling_ratio L >? 0 then sampling_ratio L
               else Qceiling (roi_width G / inject_Z (pooled_width L)))).
    by rewrite Erw.
Qed.

(** X13: the ROI box and [spatial_scale] enter only through their product:
    dividing the four coordinates by [k <> 0] and multiplying
    [spatial_scale] by [k] gives the same outcome: either both runs raise
    [std::length_error], or both return 0 with equal outputs. *)
Theorem roi_and_scale_enter_as_product
    (L : ROIAlign) (bottom_blob : Mat) (k x1 y1 x2 y2 : Q) (rest rest' : list Q)
    (blob_allocator : Z -> Z -> Z -> option (list (list Q))) (buf : list (list Q)) :
  ~ (k == 0)%Q ->
  0 < pooled_height L -> 0 < pooled_width L ->
  blob_allocator (pooled_width L) (pooled_height L) (c bottom_blob) = Some buf ->
  blob_ok bottom_blob = true ->
  shape_ok buf (c bottom_blob) (pooled_width L * pooled_height L) = true ->
  (forward L bottom_blob (x1 :: y1 :: x2 :: y2 :: rest) blob_allocator = LengthError
   /\ forward (rescaled L k) bottom_blob
        ((x1 / k)%Q :: (y1 / k)%Q :: (x2 / k)%Q :: (y2 / k)%Q :: rest') blob_allocator
      = LengthError)
  \/ exists top_blob top_blob',
       forward L bottom_blob (x1 :: y1 :: x2 :: y2 :: rest) blob_allocator
       = Done (0, top_blob)
       /\ forward (rescaled L k) bottom_blob
            ((x1 / k)%Q :: (y1 / k)%Q :: (x2 / k)%Q :: (y2 / k)%Q :: rest') blob_allocator
          = Done (0, top_blob')
       /\ forall q ph pw,
            0 <= q < c bottom_blob ->
            0 <= ph < pooled_height L -> 0 <= pw < pooled_width L ->
            exists val val',
              cell top_blob q ph pw = Done val
              /\ cell top_blob' q ph pw = Done val'
              /\ (val == val')%Q.
Proof.
  intros Hk HPH HPW Halloc Hbottom Hbuf.
  destruct (rescaled_geometry L k x1 y1 x2 y2 Hk) as (Esh & Esw & Ebh & Ebw & Egh & Egw).
  by apply (forward_agree L (rescaled L k) bottom_blob x1 y1 x2 y2
              (x1 / k) (y1 / k) (x2 / k) (y2 / k) rest rest' blob_allocator buf).
Qed.

Lemma roi_and_scale_enter_as_product_witness :
  (forward layer_legacy rows4x4 [0; 0; 8; 8]%Q plain_allocator = LengthError
   /\ forward (rescaled layer_legacy 2) rows4x4
        [(0 / 2)%Q; (0 / 2)%Q; (8 / 2)%Q; (8 / 2)%Q] plain_allocator
      = LengthError)
  \/ exists top_blob top_blob',
       forward layer_legacy rows4x4 [0; 0; 8; 8]%Q plain_allocator = Done (0, top_blob)
       /\ forward (rescaled layer_legacy 2) rows4x4
            [(0 / 2)%Q; (0 / 2)%Q; (8 / 2)%Q; (8 / 2)%Q] plain_allocator
          = Done (0, top_blob')
       /\ forall q ph pw,
            0 <= q < c rows4x4 ->
            0 <= ph < pooled_height layer_legacy ->
            0 <= pw < pooled_width layer_legacy ->
            exists val val',
              cell top_blob q ph pw = Done val
              /\ cell top_blob' q ph pw = Done val'
              /\ (val == val')%Q.
Proof.
  apply (roi_and_scale_enter_as_product layer_legacy rows4x4 2 0 0 8 8 [] []
           plain_allocator (replicate 1 (replicate 4 0%Q)));
    [vm_compute; discriminate | reflexivity | reflexivity | reflexivity | reflexivity
    | reflexivity].
Defined.

(** ** Linearity in the feature map *)

Lemma forallb_zip3 {A} (P : A * (A * A) -> bool) (l3 l1 l2 : list A) i x3 x1 x2 :
  forallb P (zip l3 (zip l1 l2)) = true ->
  l3 !! i = Some x3 -> l1 !! i = Some x1 -> l2 !! i = Some x2 ->
  P (x3, (x1, x2)) = true.
Proof.
  intros Hall H3 H1 H2. rewrite forallb_forall in Hall. apply Hall.
  apply list_elem_of_In, list_elem_of_lookup. exists i.
  apply lookup_zip_with_Some. exists x3, (x1, x2). split; [reflexivity|].
  split; [exact H3|]. apply lookup_zip_with_Some. by exists x1, x2.
Qed.

Lemma combination_peek a b (v1 v2 v3 : list Q) i :
  combination a b v1 v2 v3 = true ->
  (peek v3 i == a * peek v1 i + b * peek v2 i)%Q.
Proof.
  unfold combination. rewrite !andb_true_iff, !Nat.eqb_eq. intros [[Hl1 Hl2] Hall].
  unfold peek. destruct (i <? 0); [ring|].
  destruct (v3 !! Z.to_nat i) as [x3|] eqn:E3.
  - pose proof (lookup_lt_Some _ _ _ E3) as Hlt.
    destruct (lookup_lt_is_Some_2 v1 (Z.to_nat i)) as [x1 E1]; [lia|].
    destruct (lookup_lt_is_Some_2 v2 (Z.to_nat i)) as [x2 E2]; [lia|].
    rewrite E1, E2. simpl.
    apply Qeq_bool_iff. exact (forallb_zip3 _ _ _ _ _ _ _ _ Hall E3 E1 E2).
  - pose proof (proj1 (lookup_ge_None _ _) E3) as Hge.
    rewrite (proj2 (lookup_ge_None v1 (Z.to_nat i))) by lia.
    rewrite (proj2 (lookup_ge_None v2 (Z.to_nat i))) by lia.
    simpl. ring.
Qed.

Lemma term_linear a b (v1 v2 v3 : list Q) pc :
  combination a b v1 v2 v3 = true ->
  (term v3 pc == a * term v1 pc + b * term v2 pc)%Q.
Proof.
  intros Hc. unfold term. rewrite !(combination_peek a b v1 v2 v3) by exact Hc. ring.
Qed.

Lemma Qsum_linear {A} (f1 f2 f3 : A -> Q) (a b : Q) (l : list A) :
  (forall x, (f3 x == a * f1 x + b * f2 x)%Q) ->
  (Qsum (f3 <$> l) == a * Qsum (f1 <$> l) + b * Qsum (f2 <$> l))%Q.
Proof.
  intros Hf. induction l as [|x l IH].
  - change (0 == a * 0 + b * 0)%Q. ring.
  - change (f3 x + Qsum (f3 <$> l)
            == a * (f1 x + Qsum (f1 <$> l)) + b * (f2 x + Qsum (f2 <$> l)))%Q.
    rewrite IH, Hf. ring.
Qed.

Lemma cell_value_linear G pre_calc a b (v1 v2 v3 : list Q) j :
  combination a b v1 v2 v3 = true ->
  (cell_value G pre_calc v3 j
   == a * cell_value G pre_calc v1 j + b * cell_value G pre_calc v2 j)%Q.
Proof.
  intros Hc. unfold cell_value, partial_sum.
  rewrite !foldl_add_term, !Qplus_0_l.
  rewrite (Qsum_linear (term v1) (term v2) (term v3) a b)
    by (intros; by apply term_linear).
  unfold Qdiv. ring.
Qed.

Lemma combination_blob_spec a b (m1 m2 m3 : Mat) :
  combination_blob a b m1 m2 m3 = true ->
  (w m1 = w m3 /\ w m2 = w m3 /\ h m1 = h m3 /\ h m2 = h m3
   /\ c m1 = c m3 /\ c m2 = c m3)
  /\ forall q v1 v2 v3,
       channel m1 q = Done v1 -> channel m2 q = Done v2 -> channel m3 q = Done v3 ->
       combination a b v1 v2 v3 = true.
Proof.
  unfold combination_blob. rewrite !andb_true_iff, !Z.eqb_eq.
  intros [[[[[[E1 E2] E3] E4] E5] E6] Hd].
  split; [tauto|]. intros q v1 v2 v3. unfold channel.
  destruct (data m1) as [c1|], (data m2) as [c2|], (data m3) as [c3|]; try discriminate.
  apply andb_true_iff in Hd as [_ Hall].
  intros H1 H2 H3.
  apply at_Done_inv in H1 as [_ H1]. apply at_Done_inv in H2 as [_ H2].
  apply at_Done_inv in H3 as [_ H3].
  exact (forallb_zip3 _ _ _ _ _ _ _ _ Hall H3 H1 H2).
Qed.

Lemma stencils_same_size L (m m' : Mat) G :
  h m = h m' -> w m = w m' -> stencils L m G = stencils L m' G.
Proof. intros Hh Hw. unfold stencils. by rewrite Hh, Hw. Qed.

(** X14: pooling is linear in the feature map: for feature maps of one
    shape with [m3 = a * m1 + b * m2] element by element, every output cell
    for [m3] is [a] times the cell for [m1] plus [b] times the cell for
    [m2], under the same configuration and ROI. *)
Theorem forward_is_linear
    (L : ROIAlign) (m1 m2 m3 : Mat) (a b : Q) (r0 r1 r2 r3 : Q) (rest : list Q)
    (blob_allocator : Z -> Z -> Z -> option (list (list Q))) (buf : list (list Q)) :
  0 < pooled_height L -> 0 < pooled_width L ->
  blob_allocator (pooled_width L) (pooled_height L) (c m3) = Some buf ->
  shape_ok buf (c m3) (pooled_width L * pooled_height L) = true ->
  blob_ok m1 = true -> blob_ok m2 = true -> blob_ok m3 = true ->
  combination_blob a b m1 m2 m3 = true ->
  0 <= roi_bin_grid_h (geometry L r0 r1 r2 r3) * roi_bin_grid_w (geometry L r0 r1 r2 r3) ->
  exists top1 top2 top3,
    forward L m1 (r0 :: r1 :: r2 :: r3 :: rest) blob_allocator = Done (0, top1)
    /\ forward L m2 (r0 :: r1 :: r2 :: r3 :: rest) blob_allocator = Done (0, top2)
    /\ forward L m3 (r0 :: r1 :: r2 :: r3 :: rest) blob_allocator = Done (0, top3)
    /\ forall q ph pw,
         0 <= q < c m3 -> 0 <= ph < pooled_height L -> 0 <= pw < pooled_width L ->
         exists val1 val2 val3,
           cell top1 q ph pw = Done val1
           /\ cell top2 q ph pw = Done val2
           /\ cell top3 q ph pw = Done val3
           /\ (val3 == a * val1 + b * val2)%Q.
Proof.
  intros HPH HPW Halloc Hbuf Hm1 Hm2 Hm3 Hcomb Hpos.
  destruct (combination_blob_spec a b m1 m2 m3 Hcomb)
    as [(Ew1 & Ew2 & Eh1 & Eh2 & Ec1 & Ec2) Hchan].
  destruct (forward_cells L m1 r0 r1 r2 r3 rest blob_allocator buf HPH HPW)
    as (top1 & Hrun1 & _ & _ & _ & Hcells1); try assumption; try (by rewrite Ec1).
  destruct (forward_cells L m2 r0 r1 r2 r3 rest blob_allocator buf HPH HPW)
    as (top2 & Hrun2 & _ & _ & _ & Hcells2); try assumption; try (by rewrite Ec2).
  destruct (forward_cells L m3 r0 r1 r2 r3 rest blob_allocator buf HPH HPW)
    as (top3 & Hrun3 & _ & _ & _ & Hcells3); try assumption.
  exists top1, top2, top3. repeat (split; [assumption|]).
  intros q ph pw Hq Hph Hpw.
  destruct (Hcells1 q ph pw ltac:(lia) Hph Hpw) as (v1 & Hv1 & _ & Hcell1).
  destruct (Hcells2 q ph pw ltac:(lia) Hph Hpw) as (v2 & Hv2 & _ & Hcell2).
  destruct (Hcells3 q ph pw Hq Hph Hpw) as (v3 & Hv3 & _ & Hcell3).
  eexists. eexists. eexists.
  split; [exact Hcell1|]. split; [exact Hcell2|]. split; [exact Hcell3|].
  rewrite (stencils_same_size L m1 m3) by assumption.
  rewrite (stencils_same_size L m2 m3) by assumption.
  apply cell_value_linear. by apply (Hchan q).
Qed.

Lemma forward_is_linear_witness :
  exists top1 top2 top3,
    forward layer_2x2 ones4x4 [-3; 0; 4; 4]%Q plain_allocator = Done (0, top1)
    /\ forward layer_2x2 rows4x4 [-3; 0; 4; 4]%Q plain_allocator = Done (0, top2)
    /\ forward layer_2x2 mixed4x4 [-3; 0; 4; 4]%Q plain_allocator = Done (0, top3)
    /\ forall q ph pw,
         0 <= q < c mixed4x4 ->
         0 <= ph < pooled_height layer_2x2 -> 0 <= pw < pooled_width layer_2x2 ->
         exists val1 val2 val3,
           cell top1 q ph pw = Done val1
           /\ cell top2 q ph pw = Done val2
           /\ cell top3 q ph pw = Done val3
           /\ (val3 == 2 * val1 + 3 * val2)%Q.
Proof.
  apply (forward_is_linear layer_2x2 ones4x4 rows4x4 mixed4x4 2 3 (-3) 0 4 4 []
           plain_allocator (replicate 1 (replicate 4 0%Q)));
    [reflexivity | reflexivity | reflexivity | reflexivity | reflexivity | reflexivity
    | reflexivity | reflexivity | vm_compute; discriminate].
Defined.

(** ** Inverted ROIs and loaded configurations *)










(** ** Channels *)

(** X18: channels are never mixed: two feature maps of one shape that agree
    on channel [q] give the same channel [q] of the output, whatever their
    other channels hold. *)
Theorem forward_keeps_channels_apart
    (L : ROIAlign) (m1 m2 : Mat) (q : Z) (r0 r1 r2 r3 : Q) (rest : list Q)
    (blob_allocator : Z -> Z -> Z -> option (list (list Q))) (buf : list (list Q)) :
  0 < pooled_height L -> 0 < pooled_width L ->
  blob_allocator (pooled_width L) (pooled_height L) (c m1) = Some buf ->
  shape_ok buf (c m1) (pooled_width L * pooled_height L) = true ->
  blob_ok m1 = true -> blob_ok m2 = true ->
  w m2 = w m1 -> h m2 = h m1 -> c m2 = c m1 ->
  0 <= q < c m1 ->
  channel m1 q = channel m2 q ->
  0 <= roi_bin_grid_h (geometry L r0 r1 r2 r3) * roi_bin_grid_w (geometry L r0 r1 r2 r3) ->
  exists top1 top2,
    forward L m1 (r0 :: r1 :: r2 :: r3 :: rest) blob_allocator = Done (0, top1)
    /\ forward L m2 (r0 :: r1 :: r2 :: r3 :: rest) blob_allocator = Done (0, top2)
    /\ forall ph pw,
         0 <= ph < pooled_height L -> 0 <= pw < pooled_width L ->
         exists val, cell top1 q ph pw = Done val /\ cell top2 q ph pw = Done val.
Proof.
  intros HPH HPW Halloc Hbuf Hm1 Hm2 Ew Eh Ec Hq Hchan Hpos.
  destruct (forward_cells L m1 r0 r1 r2 r3 rest blob_allocator buf HPH HPW)
    as (top1 & Hrun1 & _ & _ & _ & Hcells1); try assumption.
  destruct (forward_cells L m2 r0 r1 r2 r3 rest blob_allocator buf HPH HPW)
    as (top2 & Hrun2 & _ & _ & _ & Hcells2); try assumption; try (by rewrite Ec).
  exists top1, top2. split; [exact Hrun1|]. split; [exact Hrun2|].
  intros ph pw Hph Hpw.
  destruct (Hcells1 q ph pw Hq Hph Hpw) as (v1 & Hv1 & _ & Hcell1).
  destruct (Hcells2 q ph pw ltac:(lia) Hph Hpw) as (v2 & Hv2 & _ & Hcell2).
  assert (v2 = v1) as -> by congruence.
  rewrite (stencils_same_size L m2 m1 (geometry L r0 r1 r2 r3) Eh Ew) in Hcell2.
  eexists. split; [exact Hcell1 | exact Hcell2].
Qed.

Lemma forward_keeps_channels_apart_witness :
  exists top1 top2,
    forward layer_2x2 pair2x2_a [0; 0; 2; 2]%Q plain_allocator = Done (0, top1)
    /\ forward layer_2x2 pair2x2_b [0; 0; 2; 2]%Q plain_allocator = Done (0, top2)
    /\ forall ph pw,
         0 <= ph < pooled_height layer_2x2 -> 0 <= pw < pooled_width layer_2x2 ->
         exists val, cell top1 0 ph pw = Done val /\ cell top2 0 ph pw = Done val.
Proof.
  apply (forward_keeps_channels_apart layer_2x2 pair2x2_a pair2x2_b 0 0 0 2 2 []
           plain_allocator (replicate 2 (replicate 4 0%Q)));
    [reflexivity | reflexivity | reflexivity | reflexivity | reflexivity | reflexivity
    | reflexivity | reflexivity | reflexivity | simpl; lia | reflexivity
    | vm_compute; discriminate].
Defined.
